(** * html_chat_to_md: a saved chat transcript (HTML) to a role-tagged text log

    Shallow embedding of [src/html_chat_to_md.py] and the properties of its
    message extraction, serializer and command-line entry point.

    Conventions of the embedding.
    - A Python [str] is a [string]; a character is a code point below 256.
      On those code points [str.isspace] and [re.IGNORECASE] are the
      functions [isspace] and [lower] below.
    - [None] for an attribute written without a value is [None : option string].
    - A raised exception is the [Raise] branch of [result].
    - The callbacks that [html.parser.HTMLParser] (standard library, not part
      of the repository) makes while [feed] and [close] run are a list of
      [event]; the decomposition of a text into events is a parameter
      [html_events] of everything that reads markup. *)

From Stdlib Require Import String Ascii List ZArith Lia Bool.
From stdpp Require Import base option list strings gmap pretty.
Import ListNotations.

Local Open Scope string_scope.
Local Open Scope list_scope.

(** ** Python values and exceptions *)

Inductive exn : Type :=
| TypeError
| SystemExit (msg : string)
| FileNotFoundError
| IsADirectoryError.

Inductive result (A : Type) : Type :=
| Ok (a : A)
| Raise (e : exn).
Arguments Ok {A} a.
Arguments Raise {A} e.

Definition rbind {A B : Type} (r : result A) (k : A -> result B) : result B :=
  match r with
  | Ok a => k a
  | Raise e => Raise e
  end.

Notation "x <-! r ; k" := (rbind r (fun x => k))
  (at level 100, r at next level, right associativity).

(** ** Strings *)

Module PyStr.

Definition nl : string := String "010"%char EmptyString.
Definition dquote : string := String "034"%char EmptyString.

(** [str.isspace] on one code point below 256: TAB..CR, FS..US, SPACE,
    NEL and NBSP. *)
Definition isspace (c : ascii) : bool :=
  let n := N_of_ascii c in
  ((9 <=? n) && (n <=? 13) || (28 <=? n) && (n <=? 32)
   || (n =? 133) || (n =? 160))%N.

Fixpoint lstrip (s : string) : string :=
  match s with
  | EmptyString => EmptyString
  | String c s' => if isspace c then lstrip s' else s
  end.

Fixpoint rstrip (s : string) : string :=
  match s with
  | EmptyString => EmptyString
  | String c s' =>
      match rstrip s' with
      | EmptyString => if isspace c then EmptyString else String c EmptyString
      | r => String c r
      end
  end.

(** [s.strip()] *)
Definition strip (s : string) : string := lstrip (rstrip s).

(** [sep.join(parts)] with [sep] the empty string. *)
Definition join (parts : list string) : string :=
  fold_right String.append EmptyString parts.

(** Truth value of a [str]: non-empty. *)
Definition truthy (s : string) : bool :=
  match s with
  | EmptyString => false
  | String _ _ => true
  end.

(** Case folding of [re.IGNORECASE] on code points below 256 that the
    patterns of this program can match: A..Z to a..z. *)
Definition lower (c : ascii) : ascii :=
  let n := N_of_ascii c in
  if ((65 <=? n) && (n <=? 90))%N then ascii_of_N (n + 32) else c.

Fixpoint lower_str (s : string) : string :=
  match s with
  | EmptyString => EmptyString
  | String c s' => String (lower c) (lower_str s')
  end.

(** The literal [pat] matches at the start of [s], ignoring case. *)
Fixpoint match_here (pat s : string) : bool :=
  match pat, s with
  | EmptyString, _ => true
  | String _ _, EmptyString => false
  | String a pat', String b s' =>
      if Ascii.eqb (lower a) (lower b) then match_here pat' s' else false
  end.


End PyStr.
Import PyStr.

(** ** The two regular expressions of [handle_starttag]

    Both patterns are alternations of literals, searched with
    [re.IGNORECASE]. *)

Definition regex : Type := list string.

Definition re_user : regex := ["user"].
Definition re_assistant : regex := ["assistant"; "bot"; "chatgpt"].

Fixpoint search_from (alts : regex) (s : string) : bool :=
  existsb (fun pat => match_here pat s) alts
  || match s with
     | EmptyString => false
     | String _ s' => search_from alts s'
     end.

(** [re.search(pattern, string, re.IGNORECASE)], as the truth value of the
    match object.  A [string] argument that is [None] raises [TypeError]
    ("expected string or bytes-like object"). *)
Definition re_search (pattern : regex) (subject : option string) : result bool :=
  match subject with
  | None => Raise TypeError
  | Some s => Ok (search_from pattern s)
  end.

(** ** Data model *)

(** The two role strings [handle_starttag] assigns.  Both are non-empty, so
    [if self._current_role] holds exactly when the attribute is not [None]:
    [_current_role] is an [option Role]. *)
Inductive Role : Type := PROMPTER | CHAT.

Definition role_label (r : Role) : string :=
  match r with
  | PROMPTER => "PROMPTER"
  | CHAT => "CHAT"
  end.

Definition Message : Type := Role * string.

(** The attribute list of a start tag, as [HTMLParser] hands it over. *)
Definition attr : Type := string * option string.

Inductive event : Type :=
| Starttag (tag : string) (attrs : list attr)
| Data (data : string)
| Endtag (tag : string).

(** ** class ConversationParser *)

Record ConversationParser : Type := mkParser {
  messages : list Message;
  _current_role : option Role;
  _buffer : list string
}.

(** [__init__] *)
Definition new_parser : ConversationParser :=
  {| messages := []; _current_role := None; _buffer := [] |}.

(** [{k: v for k, v in attrs}]: a later pair replaces an earlier one. *)
Definition attr_dict (attrs : list attr) : gmap string (option string) :=
  fold_left (fun d kv => <[kv.1 := kv.2]> d) attrs ∅.

(** [attr_dict.get("class", "")] *)
Definition get_class (attrs : list attr) : option string :=
  default (Some EmptyString) (attr_dict attrs !! "class").

Definition _close_message (p : ConversationParser) : ConversationParser :=
  {| messages :=
       match _current_role p, _buffer p with
       | Some role, _ :: _ =>
           let text := strip (join (_buffer p)) in
           if truthy text then messages p ++ [(role, text)] else messages p
       | _, _ => messages p
       end;
     _current_role := None;
     _buffer := [] |}.

(** The [role] local of [handle_starttag] after its [if]/[elif]. *)
Definition detect_role (attrs : list attr) : result (option Role) :=
  let classes := get_class attrs in
  is_user <-! re_search re_user classes;
  if is_user then Ok (Some PROMPTER)
  else
    is_chat <-! re_search re_assistant classes;
    if is_chat then Ok (Some CHAT) else Ok None.

Definition handle_starttag (p : ConversationParser) (tag : string)
    (attrs : list attr) : result ConversationParser :=
  role <-! detect_role attrs;
  match role with
  | Some r =>
      let p' := _close_message p in
      Ok {| messages := messages p';
            _current_role := Some r;
            _buffer := _buffer p' |}
  | None => Ok p
  end.

Definition handle_data (p : ConversationParser) (data : string)
    : ConversationParser :=
  match _current_role p with
  | Some _ =>
      {| messages := messages p;
         _current_role := _current_role p;
         _buffer := _buffer p ++ [data] |}
  | None => p
  end.

Definition containers : gset string := {[ "div"; "p"; "span" ]}.

Definition handle_endtag (p : ConversationParser) (tag : string)
    : ConversationParser :=
  match _current_role p with
  | Some _ => if decide (tag ∈ containers) then _close_message p else p
  | None => p
  end.

(** One callback of the base class on the subclass. *)
Definition dispatch (p : ConversationParser) (e : event)
    : result ConversationParser :=
  match e with
  | Starttag tag attrs => handle_starttag p tag attrs
  | Data data => Ok (handle_data p data)
  | Endtag tag => Ok (handle_endtag p tag)
  end.

(** The callbacks of [parser.feed(text); parser.close()], in order; the
    first one that raises ends the run. *)
Fixpoint run_events (evs : list event) (p : ConversationParser)
    : result ConversationParser :=
  match evs with
  | [] => Ok p
  | e :: evs' => p' <-! dispatch p e; run_events evs' p'
  end.

(** What [convert_html_to_markdown] returns for an event stream: the
    [messages] attribute after the last callback. *)
Definition extract_events (evs : list event) : result (list Message) :=
  p <-! run_events evs new_parser; Ok (messages p).

(** ** Files, standard streams and the process *)

Inductive node : Type :=
| File (content : string)
| Directory.

(** Every file is readable UTF-8 text and every path that is not a directory
    can be created or truncated: permissions, decoding errors and missing
    parent directories are outside the model.  So is the newline translation
    of text mode: the content of a file is the text a read returns, and a
    text without carriage returns is written as it is. *)
Record World : Type := mkWorld {
  fs : gmap string node;
  stdout : string;
  stderr : string
}.

Definition M (A : Type) : Type := World -> World * result A.

Definition ret {A : Type} (a : A) : M A := fun w => (w, Ok a).
Definition raise {A : Type} (e : exn) : M A := fun w => (w, Raise e).
Definition lift {A : Type} (r : result A) : M A := fun w => (w, r).
Definition bind {A B : Type} (c : M A) (k : A -> M B) : M B :=
  fun w =>
    match c w with
    | (w', Ok a) => k a w'
    | (w', Raise e) => (w', Raise e)
    end.

Notation "x <~ c ;; k" := (bind c (fun x => k))
  (at level 100, c at next level, right associativity).
Notation "c ;;; k" := (bind c (fun _ => k))
  (at level 100, right associativity).

(** [os.path.isfile(path)] *)
Definition isfile (path : string) : M bool :=
  fun w =>
    (w, Ok match fs w !! path with
           | Some (File _) => true
           | _ => false
           end).

(** [open(path, "r", encoding="utf-8")] followed by [f.read()]. *)
Definition read_text (path : string) : M string :=
  fun w =>
    match fs w !! path with
    | Some (File content) => (w, Ok content)
    | Some Directory => (w, Raise IsADirectoryError)
    | None => (w, Raise FileNotFoundError)
    end.

(** [open(path, "w", encoding="utf-8")]: the file is created, or truncated. *)
Definition open_w (path : string) : M unit :=
  fun w =>
    match fs w !! path with
    | Some Directory => (w, Raise IsADirectoryError)
    | _ =>
        ({| fs := <[path := File EmptyString]> (fs w);
            stdout := stdout w; stderr := stderr w |}, Ok tt)
    end.

(** [f.write(s)] on the file opened at [path]. *)
Definition f_write (path : string) (s : string) : M unit :=
  fun w =>
    match fs w !! path with
    | Some (File content) =>
        ({| fs := <[path := File (content +:+ s)]> (fs w);
            stdout := stdout w; stderr := stderr w |}, Ok tt)
    | _ => (w, Ok tt)
    end.

(** [print(s)] *)
Definition print (s : string) : M unit :=
  fun w =>
    ({| fs := fs w; stdout := stdout w +:+ s +:+ nl; stderr := stderr w |},
     Ok tt).

(** *** os.path.splitext (posixpath) *)

(** [s.rfind(c)], -1 when [c] does not occur. *)
Fixpoint rfind (c : ascii) (s : string) : Z :=
  match s with
  | EmptyString => (-1)%Z
  | String a s' =>
      let i := rfind c s' in
      if (0 <=? i)%Z then (i + 1)%Z
      else if Ascii.eqb a c then 0%Z else (-1)%Z
  end.

(** The [while filenameIndex < dotIndex] loop of [genericpath._splitext]:
    whether one of the next [n] characters from [filenameIndex] on is not a
    dot. *)
Fixpoint has_non_dot (p : string) (filenameIndex : nat) (n : nat) : bool :=
  match n with
  | O => false
  | S n' =>
      match String.get filenameIndex p with
      | Some c =>
          if Ascii.eqb c "."%char then has_non_dot p (S filenameIndex) n'
          else true
      | None => true
      end
  end.

Definition splitext (p : string) : string * string :=
  let sepIndex := rfind "/"%char p in
  let dotIndex := rfind "."%char p in
  if (sepIndex <? dotIndex)%Z
     && has_non_dot p (Z.to_nat (sepIndex + 1))
          (Z.to_nat (dotIndex - (sepIndex + 1)))
  then (String.substring 0 (Z.to_nat dotIndex) p,
        String.substring (Z.to_nat dotIndex)
          (String.length p - Z.to_nat dotIndex) p)
  else (p, EmptyString).

(** ** The module-level functions *)

(** The namespace [parse_arguments] returns. *)
Record Namespace : Type := mkArgs {
  input_file : string;
  output_file : option string
}.

(** [f"{role}:\n{text}\n\n"] *)
Definition entry (m : Message) : string :=
  role_label m.1 +:+ ":" +:+ nl +:+ m.2 +:+ nl +:+ nl.

Fixpoint write_entries (messages : list Message) (path : string) : M unit :=
  match messages with
  | [] => ret tt
  | m :: rest => f_write path (entry m) ;;; write_entries rest path
  end.

Definition write_markdown (messages : list Message) (path : string) : M unit :=
  open_w path ;;; write_entries messages path.

(** [args.output_file or os.path.splitext(args.input_file)[0] + ".md"] *)
Definition output_of (args : Namespace) : string :=
  let derived := (splitext (input_file args)).1 +:+ ".md" in
  match output_file args with
  | Some o => if truthy o then o else derived
  | None => derived
  end.

Section Program.

(** The callbacks [HTMLParser.feed] and [HTMLParser.close] make on a text. *)
Variable html_events : string -> list event.

(** The extraction on a text already read. *)
Definition extract (markup : string) : result (list Message) :=
  extract_events (html_events markup).

Definition convert_html_to_markdown (path : string) : M (list Message) :=
  markup <~ read_text path ;;
  lift (extract markup).

Definition main (args : Namespace) : M unit :=
  found <~ isfile (input_file args) ;;
  if negb found then raise (SystemExit "Input file not found")
  else
    let output := output_of args in
    messages <~ convert_html_to_markdown (input_file args) ;;
    write_markdown messages output ;;;
    print ("Wrote " +:+ pretty (length messages) +:+ " messages to "
           +:+ output).

(** What the interpreter does with [main()] at top level: status 0 when it
    returns; an uncaught [SystemExit(msg)] prints [msg] on standard error
    and gives status 1; any other uncaught exception gives status 1 after
    a traceback, of which only the exception's name is kept. *)
Definition exn_name (e : exn) : string :=
  match e with
  | TypeError => "TypeError"
  | SystemExit msg => msg
  | FileNotFoundError => "FileNotFoundError"
  | IsADirectoryError => "IsADirectoryError"
  end.

Definition run (args : Namespace) (w : World) : World * Z :=
  match main args w with
  | (w', Ok _) => (w', 0%Z)
  | (w', Raise e) =>
      ({| fs := fs w'; stdout := stdout w';
          stderr := stderr w' +:+ exn_name e +:+ nl |}, 1%Z)
  end.

End Program.

(** ** A reference event decomposition

    Modelled from the spec: the decomposition of markup into element-open
    events (with their attribute list), text events and element-close
    events.  The program leaves it to [html.parser.HTMLParser] of the
    standard library, which is not under src/.  What the spec leaves open
    follows that library's documentation: tag and attribute names are
    lower-cased, an attribute written without a value has the value [None],
    quotes around a value are removed, and a start tag closed by a slash is
    a start tag followed by an end tag.  The scanner covers text, start tags
    with attributes and end tags; character references, comments,
    declarations and script or style content are outside it. *)

Module Scanner.

Definition is_alpha (c : ascii) : bool :=
  let n := N_of_ascii c in
  ((65 <=? n) && (n <=? 90) || (97 <=? n) && (n <=? 122))%N.

Definition snoc (s : string) (c : ascii) : string :=
  s +:+ String c EmptyString.

Inductive mode : Type :=
| InData (text : string)
| AfterLt
| AfterLtSlash
| InTagName (name : string)
| BeforeAttr (tag : string) (attrs : list attr)
| InAttrName (tag : string) (attrs : list attr) (name : string)
| AfterAttrName (tag : string) (attrs : list attr) (name : string)
| BeforeValue (tag : string) (attrs : list attr) (name : string)
| InQuoted (tag : string) (attrs : list attr) (name : string)
    (q : ascii) (val : string)
| InUnquoted (tag : string) (attrs : list attr) (name : string)
    (val : string)
| AfterSlash (tag : string) (attrs : list attr)
| InEndName (name : string)
| AfterEndName (name : string).

Definition emit_data (text : string) : list event :=
  if truthy text then [Data text] else [].

Definition in_data (text : string) (c : ascii) : mode * list event :=
  if Ascii.eqb c "<"%char then (AfterLt, emit_data text)
  else (InData (snoc text c), []).

Definition open_tag (tag : string) (attrs : list attr) : mode * list event :=
  (InData EmptyString, [Starttag tag attrs]).

Definition before_attr (tag : string) (attrs : list attr) (c : ascii)
    : mode * list event :=
  if isspace c then (BeforeAttr tag attrs, [])
  else if Ascii.eqb c "/"%char then (AfterSlash tag attrs, [])
  else if Ascii.eqb c ">"%char then open_tag tag attrs
  else (InAttrName tag attrs (String (lower c) EmptyString), []).

Definition step (m : mode) (c : ascii) : mode * list event :=
  match m with
  | InData text => in_data text c
  | AfterLt =>
      if is_alpha c then (InTagName (String (lower c) EmptyString), [])
      else if Ascii.eqb c "/"%char then (AfterLtSlash, [])
      else let r := in_data EmptyString c in (r.1, Data "<" :: r.2)
  | AfterLtSlash =>
      if is_alpha c then (InEndName (String (lower c) EmptyString), [])
      else in_data "</" c
  | InTagName name =>
      if isspace c then (BeforeAttr name [], [])
      else if Ascii.eqb c "/"%char then (AfterSlash name [], [])
      else if Ascii.eqb c ">"%char then open_tag name []
      else (InTagName (snoc name (lower c)), [])
  | BeforeAttr tag attrs => before_attr tag attrs c
  | InAttrName tag attrs name =>
      if isspace c then (AfterAttrName tag attrs name, [])
      else if Ascii.eqb c "="%char then (BeforeValue tag attrs name, [])
      else if Ascii.eqb c "/"%char
      then (AfterSlash tag (attrs ++ [(name, None)]), [])
      else if Ascii.eqb c ">"%char
      then open_tag tag (attrs ++ [(name, None)])
      else (InAttrName tag attrs (snoc name (lower c)), [])
  | AfterAttrName tag attrs name =>
      if isspace c then (AfterAttrName tag attrs name, [])
      else if Ascii.eqb c "="%char then (BeforeValue tag attrs name, [])
      else before_attr tag (attrs ++ [(name, None)]) c
  | BeforeValue tag attrs name =>
      if isspace c then (BeforeValue tag attrs name, [])
      else if Ascii.eqb c "034"%char || Ascii.eqb c "'"%char
      then (InQuoted tag attrs name c EmptyString, [])
      else if Ascii.eqb c ">"%char
      then open_tag tag (attrs ++ [(name, Some EmptyString)])
      else (InUnquoted tag attrs name (String c EmptyString), [])
  | InQuoted tag attrs name q val =>
      if Ascii.eqb c q then (BeforeAttr tag (attrs ++ [(name, Some val)]), [])
      else (InQuoted tag attrs name q (snoc val c), [])
  | InUnquoted tag attrs name val =>
      if isspace c then (BeforeAttr tag (attrs ++ [(name, Some val)]), [])
      else if Ascii.eqb c ">"%char
      then open_tag tag (attrs ++ [(name, Some val)])
      else (InUnquoted tag attrs name (snoc val c), [])
  | AfterSlash tag attrs =>
      if Ascii.eqb c ">"%char
      then (InData EmptyString, [Starttag tag attrs; Endtag tag])
      else before_attr tag attrs c
  | InEndName name =>
      if Ascii.eqb c ">"%char then (InData EmptyString, [Endtag name])
      else if isspace c then (AfterEndName name, [])
      else (InEndName (snoc name (lower c)), [])
  | AfterEndName name =>
      if Ascii.eqb c ">"%char then (InData EmptyString, [Endtag name])
      else (AfterEndName name, [])
  end.

(** [raw] is the text since the last [<] that has not yet become an
    event; a tag the input ends in is handed over as text. *)
Fixpoint scan (m : mode) (raw : string) (s : string) : list event :=
  match s with
  | EmptyString =>
      match m with
      | InData text => emit_data text
      | _ => emit_data raw
      end
  | String c s' =>
      let r := step m c in
      let raw' := match r.1 with
                  | InData _ => EmptyString
                  | _ => snoc raw c
                  end in
      r.2 ++ scan r.1 raw' s'
  end.

(** Modelled from the spec: the structural events of a document, in
    document order (the work of [HTMLParser.feed] and [HTMLParser.close]). *)
Definition events (markup : string) : list event :=
  scan (InData EmptyString) EmptyString markup.

End Scanner.

(** The documents used as concrete inputs below. *)

Definition doc_hello : string :=
  "<div class=" +:+ dquote +:+ "user-message" +:+ dquote +:+ ">Hi there</div>"
  +:+ "<div class=" +:+ dquote +:+ "assistant-message" +:+ dquote
  +:+ ">Hello! How can I help?</div>".

Definition doc_unclosed : string := "<li class='user'>hi".

Definition doc_list_items : string :=
  "<li class='user'>question</li><li class='bot'>answer</li>".

Definition doc_valueless_class : string := "<div class>hi</div>".

Definition doc_no_roles : string := "<html><body><h1>Title</h1></body></html>".

Definition world_of (files : list (string * node)) : World :=
  {| fs := list_to_map files; stdout := EmptyString; stderr := EmptyString |}.


(** ** Vocabulary of the properties *)

(** A text made of whitespace only. *)
Fixpoint whitespace_only (s : string) : bool :=
  match s with
  | EmptyString => true
  | String c s' => isspace c && whitespace_only s'
  end.

(** The text of an emitted message: not empty, and nothing left to trim. *)
Definition trimmed_nonempty (m : Message) : Prop :=
  m.2 <> EmptyString /\ strip m.2 = m.2.

(** The text a close would emit from the buffer of [p]. *)
Definition pending_text (p : ConversationParser) : string :=
  strip (join (_buffer p)).

(** The output sequence once the message open in [p] is closed: the joined,
    trimmed buffer is appended under the active role iff it is not empty. *)
Definition flushed (p : ConversationParser) : list Message :=
  match _current_role p with
  | Some r =>
      if decide (pending_text p = EmptyString) then messages p
      else messages p ++ [(r, pending_text p)]
  | None => messages p
  end.


Definition is_container (tag : string) : Prop :=
  tag = "div" \/ tag = "p" \/ tag = "span".

(** An event that ends the open message: a container end tag, or a start
    tag that carries a role signal. *)
Definition closing_event (e : event) : Prop :=
  match e with
  | Endtag tag => is_container tag
  | Starttag _ attrs => exists r, detect_role attrs = Ok (Some r)
  | Data _ => False
  end.

(** An event without a role signal: text, an end tag, or a start tag whose
    class attribute matches neither pattern. *)
Definition no_role_signal (e : event) : Prop :=
  match e with
  | Starttag _ attrs => detect_role attrs = Ok None
  | _ => True
  end.

(** In every start tag of the stream the class attribute, when present, was
    written with a value. *)
Definition class_has_value (e : event) : Prop :=
  match e with
  | Starttag _ attrs => exists classes, get_class attrs = Some classes
  | _ => True
  end.

(** The reading of the end-of-input rule under which the message still open
    after the last event is emitted as the last message. *)
Definition flushes_at_end (html_events : string -> list event)
    (markup : string) : Prop :=
  forall p r,
    run_events (html_events markup) new_parser = Ok p ->
    _current_role p = Some r ->
    pending_text p <> EmptyString ->
    exists before,
      extract html_events markup = Ok (before ++ [(r, pending_text p)]).

(** The text [write_markdown] leaves in the file. *)
Definition serialized (msgs : list Message) : string :=
  join (map (fun m => role_label m.1 +:+ ":" +:+ nl +:+ m.2 +:+ nl +:+ nl) msgs).

(** A start tag that carries a role signal. *)
Definition is_role_marker (e : event) : bool :=
  match e with
  | Starttag _ attrs =>
      match detect_role attrs with
      | Ok (Some _) => true
      | _ => false
      end
  | _ => false
  end.

Fixpoint count_role_markers (evs : list event) : nat :=
  match evs with
  | [] => 0
  | e :: evs' =>
      (if is_role_marker e then 1 else 0) + count_role_markers evs'
  end.

(** 1 while a message is open, 0 otherwise. *)
Definition open_count (p : ConversationParser) : nat :=
  match _current_role p with
  | Some _ => 1
  | None => 0
  end.

(** An event that neither opens nor closes a message: text, a start tag
    without a role signal, an end tag that is not a container. *)
Definition inline_event (e : event) : Prop :=
  match e with
  | Data _ => True
  | Starttag _ attrs => detect_role attrs = Ok None
  | Endtag tag => ~ is_container tag
  end.

(** The text events of a stream, in order. *)
Fixpoint texts_of (evs : list event) : list string :=
  match evs with
  | [] => []
  | Data data :: evs' => data :: texts_of evs'
  | _ :: evs' => texts_of evs'
  end.

(** Every text event of the stream is made of whitespace. *)
Definition blank_text (e : event) : Prop :=
  match e with
  | Data data => whitespace_only data = true
  | _ => True
  end.

(** The parser [p] with [before] in front of its output sequence. *)
Definition with_earlier (before : list Message) (p : ConversationParser)
    : ConversationParser :=
  {| messages := before ++ messages p;
     _current_role := _current_role p;
     _buffer := _buffer p |}.

(** One role-marked element of a transcript: what precedes it outside any
    role, its start tag, its content and the end tag that closes it. *)
Record block : Type := mkBlock {
  b_before : list event;
  b_tag : string;
  b_attrs : list attr;
  b_body : list event;
  b_close : string
}.

Definition block_events (b : block) : list event :=
  b_before b ++ Starttag (b_tag b) (b_attrs b) :: b_body b
  ++ [Endtag (b_close b)].

Definition well_formed_block (b : block) : Prop :=
  Forall no_role_signal (b_before b)
  /\ (exists r, detect_role (b_attrs b) = Ok (Some r))
  /\ Forall inline_event (b_body b)
  /\ is_container (b_close b).

Fixpoint transcript_events (blocks : list block) : list event :=
  match blocks with
  | [] => []
  | b :: rest => block_events b ++ transcript_events rest
  end.

(** The message a block stands for: its role with the trimmed text of its
    content, when that text is not empty. *)
Definition block_message (b : block) : list Message :=
  match detect_role (b_attrs b) with
  | Ok (Some r) =>
      let text := strip (join (texts_of (b_body b))) in
      if truthy text then [(r, text)] else []
  | _ => []
  end.

Fixpoint transcript_messages (blocks : list block) : list Message :=
  match blocks with
  | [] => []
  | b :: rest => block_message b ++ transcript_messages rest
  end.

Definition has_no_class (kv : attr) : Prop := kv.1 <> "class".

(** [c in s] *)
Fixpoint has_char (c : ascii) (s : string) : bool :=
  match s with
  | EmptyString => false
  | String a s' => Ascii.eqb a c || has_char c s'
  end.

(** * Properties *)

(** ** Strings *)

Lemma truthy_true (s : string) : truthy s = true <-> s <> EmptyString.
Proof. destruct s; simpl; split; intros; congruence. Qed.

Lemma truthy_false (s : string) : truthy s = false <-> s = EmptyString.
Proof. destruct s; simpl; split; intros; congruence. Qed.

Lemma append_nil (t : string) : EmptyString +:+ t = t.
Proof. reflexivity. Qed.

Lemma append_cons (c : ascii) (s t : string) :
  String c s +:+ t = String c (s +:+ t).
Proof. reflexivity. Qed.

Lemma append_nil_r (s : string) : s +:+ EmptyString = s.
Proof.
  induction s as [|c s IH]; [reflexivity|].
  rewrite append_cons, IH. reflexivity.
Qed.

Lemma append_assoc (s t u : string) : (s +:+ t) +:+ u = s +:+ t +:+ u.
Proof.
  induction s as [|c s IH]; [reflexivity|].
  rewrite !append_cons, IH. reflexivity.
Qed.

Lemma join_nil : join [] = EmptyString.
Proof. reflexivity. Qed.

Lemma join_cons (x : string) (xs : list string) : join (x :: xs) = x +:+ join xs.
Proof. reflexivity. Qed.

Lemma join_app (xs ys : list string) : join (xs ++ ys) = join xs +:+ join ys.
Proof.
  induction xs as [|x xs IH]; [reflexivity|].
  rewrite <- app_comm_cons, !join_cons, IH, append_assoc. reflexivity.
Qed.

Lemma join_singleton (x : string) : join [x] = x.
Proof. rewrite join_cons, join_nil. apply append_nil_r. Qed.

Lemma lstrip_idem (s : string) : lstrip (lstrip s) = lstrip s.
Proof.
  induction s as [|c s IH]; simpl; [reflexivity|].
  destruct (isspace c) eqn:E; [exact IH|]. simpl. rewrite E. reflexivity.
Qed.

Lemma rstrip_cons (c : ascii) (s : string) :
  rstrip (String c s) =
  if truthy (rstrip s) then String c (rstrip s)
  else if isspace c then EmptyString else String c EmptyString.
Proof. simpl. destruct (rstrip s); reflexivity. Qed.

Lemma rstrip_idem (s : string) : rstrip (rstrip s) = rstrip s.
Proof.
  induction s as [|c s IH]; [reflexivity|].
  rewrite rstrip_cons.
  destruct (truthy (rstrip s)) eqn:T.
  - rewrite rstrip_cons, IH, T. reflexivity.
  - destruct (isspace c) eqn:E; [reflexivity|].
    simpl. rewrite E. reflexivity.
Qed.

Lemma strip_comm (s : string) : rstrip (lstrip s) = lstrip (rstrip s).
Proof.
  induction s as [|c s IH]; [reflexivity|].
  rewrite rstrip_cons. simpl lstrip at 1.
  destruct (isspace c) eqn:E.
  - rewrite IH. destruct (truthy (rstrip s)) eqn:T.
    + simpl. rewrite E. reflexivity.
    + apply truthy_false in T. rewrite T. reflexivity.
  - rewrite rstrip_cons.
    destruct (truthy (rstrip s)); simpl; rewrite E; reflexivity.
Qed.

Lemma strip_idem (s : string) : strip (strip s) = strip s.
Proof.
  unfold strip.
  rewrite (strip_comm (rstrip s)), rstrip_idem, lstrip_idem. reflexivity.
Qed.

Lemma rstrip_blank (s : string) :
  rstrip s = EmptyString <-> whitespace_only s = true.
Proof.
  induction s as [|c s IH]; [simpl; tauto|].
  rewrite rstrip_cons. simpl whitespace_only.
  destruct (truthy (rstrip s)) eqn:T.
  - apply truthy_true in T. split; [discriminate|].
    intros H. apply andb_true_iff in H. tauto.
  - apply truthy_false in T.
    destruct (isspace c); simpl; [tauto|]. split; discriminate.
Qed.

Lemma lstrip_blank (s : string) :
  lstrip s = EmptyString <-> whitespace_only s = true.
Proof.
  induction s as [|c s IH]; simpl; [tauto|].
  destruct (isspace c); simpl; [exact IH|]. split; discriminate.
Qed.

Lemma whitespace_only_lstrip (s : string) :
  whitespace_only s = true -> whitespace_only (lstrip s) = true.
Proof. intros H. apply lstrip_blank in H. rewrite H. reflexivity. Qed.

(** A text trims to nothing exactly when it is made of whitespace. *)
Lemma strip_blank (s : string) :
  strip s = EmptyString <-> whitespace_only s = true.
Proof.
  unfold strip. rewrite <- strip_comm. rewrite rstrip_blank.
  split.
  - intros H. induction s as [|c s IH]; [reflexivity|].
    simpl in *. destruct (isspace c) eqn:E; simpl in *.
    + auto.
    + rewrite E in H. discriminate.
  - apply whitespace_only_lstrip.
Qed.

(** ** The case-insensitive search *)






(** ** The attribute dictionary *)

Lemma attr_dict_snoc (attrs : list attr) (k : string) (v : option string) :
  attr_dict (attrs ++ [(k, v)]) = <[k := v]> (attr_dict attrs).
Proof. unfold attr_dict. rewrite fold_left_app. reflexivity. Qed.

(** Without a class attribute the lookup gives the empty string. *)
Lemma get_class_absent (attrs : list attr) :
  Forall (fun kv => kv.1 <> "class") attrs -> get_class attrs = Some EmptyString.
Proof.
  intros H. unfold get_class.
  assert (attr_dict attrs !! "class" = None) as ->; [|reflexivity].
  induction attrs as [|[k v] attrs IH] using rev_ind; [reflexivity|].
  apply Forall_app in H as [H1 H2]. apply Forall_inv in H2. simpl in H2.
  rewrite attr_dict_snoc, lookup_insert_ne; auto.
Qed.

(** The last class attribute of the tag decides. *)
Lemma get_class_last (attrs rest : list attr) (v : option string) :
  Forall (fun kv => kv.1 <> "class") rest ->
  get_class (attrs ++ ("class", v) :: rest) = v.
Proof.
  intros H. unfold get_class.
  assert (attr_dict (attrs ++ ("class", v) :: rest) !! "class" = Some v)
    as ->; [|reflexivity].
  induction rest as [|[k w] rest IH] using rev_ind.
  - rewrite attr_dict_snoc. apply lookup_insert_eq.
  - apply Forall_app in H as [H1 H2]. apply Forall_inv in H2. simpl in H2.
    rewrite app_comm_cons, app_assoc, attr_dict_snoc, lookup_insert_ne; auto.
Qed.

(** ** The handlers *)

Lemma close_message_spec (p : ConversationParser) :
  _close_message p =
  {| messages := flushed p; _current_role := None; _buffer := [] |}.
Proof.
  unfold _close_message, flushed, pending_text. f_equal.
  destruct (_current_role p) as [r|]; [|destruct (_buffer p); reflexivity].
  destruct (_buffer p) as [|x xs] eqn:B.
  - rewrite join_nil. reflexivity.
  - cbv zeta. destruct (truthy (strip (join (x :: xs)))) eqn:T.
    + apply truthy_true in T. destruct (decide _); [contradiction|reflexivity].
    + apply truthy_false in T. destruct (decide _); [reflexivity|contradiction].
Qed.

Lemma flushed_no_role (p : ConversationParser) :
  _current_role p = None -> flushed p = messages p.
Proof. unfold flushed. intros ->. reflexivity. Qed.

Lemma flushed_blank (p : ConversationParser) :
  pending_text p = EmptyString -> flushed p = messages p.
Proof.
  unfold flushed. intros H. destruct (_current_role p); [|reflexivity].
  destruct (decide _); [reflexivity|contradiction].
Qed.

Lemma flushed_text (p : ConversationParser) (r : Role) :
  _current_role p = Some r -> pending_text p <> EmptyString ->
  flushed p = messages p ++ [(r, pending_text p)].
Proof.
  unfold flushed. intros -> H. destruct (decide _); [contradiction|reflexivity].
Qed.

Lemma detect_role_spec (attrs : list attr) (classes : string) :
  get_class attrs = Some classes ->
  detect_role attrs =
  Ok (if search_from re_user classes then Some PROMPTER
      else if search_from re_assistant classes then Some CHAT else None).
Proof.
  intros H. unfold detect_role. rewrite H. simpl.
  destruct (search_from re_user classes); [reflexivity|].
  destruct (search_from re_assistant classes); reflexivity.
Qed.

Lemma detect_role_valueless (attrs : list attr) :
  get_class attrs = None -> detect_role attrs = Raise TypeError.
Proof. intros H. unfold detect_role. rewrite H. reflexivity. Qed.

Lemma handle_starttag_signal (p : ConversationParser) (tag : string)
    (attrs : list attr) (r : Role) :
  detect_role attrs = Ok (Some r) ->
  handle_starttag p tag attrs =
  Ok {| messages := flushed p; _current_role := Some r; _buffer := [] |}.
Proof.
  intros H. unfold handle_starttag. rewrite H. unfold rbind.
  rewrite close_message_spec. reflexivity.
Qed.

Lemma handle_starttag_no_signal (p : ConversationParser) (tag : string)
    (attrs : list attr) :
  detect_role attrs = Ok None -> handle_starttag p tag attrs = Ok p.
Proof. intros H. unfold handle_starttag. rewrite H. reflexivity. Qed.

Lemma elem_of_containers (tag : string) : tag ∈ containers <-> is_container tag.
Proof.
  unfold containers, is_container.
  rewrite !elem_of_union, !elem_of_singleton. tauto.
Qed.

Lemma handle_endtag_container (p : ConversationParser) (tag : string)
    (r : Role) :
  _current_role p = Some r -> is_container tag ->
  handle_endtag p tag = _close_message p.
Proof.
  intros Hr Ht. unfold handle_endtag. rewrite Hr.
  destruct (decide _) as [|N]; [reflexivity|].
  exfalso. apply N, elem_of_containers, Ht.
Qed.

Lemma handle_data_active (p : ConversationParser) (data : string) (r : Role) :
  _current_role p = Some r ->
  handle_data p data =
  {| messages := messages p; _current_role := Some r;
     _buffer := _buffer p ++ [data] |}.
Proof. intros H. unfold handle_data. rewrite H. reflexivity. Qed.

Lemma handle_data_idle (p : ConversationParser) (data : string) :
  _current_role p = None -> handle_data p data = p.
Proof. intros H. unfold handle_data. rewrite H. reflexivity. Qed.

(** ** Runs *)

Lemma run_events_app (evs1 evs2 : list event) (p : ConversationParser) :
  run_events (evs1 ++ evs2) p =
  (p' <-! run_events evs1 p; run_events evs2 p').
Proof.
  revert p. induction evs1 as [|e evs1 IH]; intros p; [reflexivity|].
  simpl. destruct (dispatch p e); simpl; [apply IH|reflexivity].
Qed.

(** Text events under an active role pile up in the buffer, in order. *)
Lemma run_data_active (texts : list string) (p : ConversationParser) (r : Role) :
  _current_role p = Some r ->
  run_events (map Data texts) p =
  Ok {| messages := messages p; _current_role := Some r;
        _buffer := _buffer p ++ texts |}.
Proof.
  revert p. induction texts as [|t texts IH]; intros p H.
  - simpl. rewrite app_nil_r. destruct p; simpl in *; subst; reflexivity.
  - simpl. rewrite (handle_data_active _ _ _ H), IH by reflexivity.
    simpl. rewrite <- app_assoc. reflexivity.
Qed.

(** Events without a role signal leave an idle parser as it is. *)
Lemma run_idle (evs : list event) (p : ConversationParser) :
  _current_role p = None -> Forall no_role_signal evs -> run_events evs p = Ok p.
Proof.
  intros Hp H. induction H as [|e evs He _ IH]; [reflexivity|].
  simpl. destruct e as [tag attrs|data|tag]; simpl in *.
  - rewrite handle_starttag_no_signal by assumption. exact IH.
  - rewrite handle_data_idle by assumption. exact IH.
  - unfold handle_endtag. rewrite Hp. exact IH.
Qed.

(** The handlers raise only through a class attribute without a value. *)
Lemma run_events_total (evs : list event) (p : ConversationParser) :
  Forall class_has_value evs -> exists p', run_events evs p = Ok p'.
Proof.
  intros H. revert p. induction H as [|e evs He _ IH]; intros p.
  - exists p. reflexivity.
  - simpl. destruct e as [tag attrs|data|tag]; simpl in *; [|apply IH..].
    destruct He as [classes Hc]. unfold handle_starttag.
    rewrite (detect_role_spec _ _ Hc). simpl.
    destruct (if search_from re_user classes then _ else _); apply IH.
Qed.

(** ** The invariant of the output sequence *)

Lemma strip_trimmed_nonempty (r : Role) (s : string) :
  strip s <> EmptyString -> trimmed_nonempty (r, strip s).
Proof. intros H. split; [exact H|apply strip_idem]. Qed.

Lemma flushed_invariant (p : ConversationParser) :
  Forall trimmed_nonempty (messages p) -> Forall trimmed_nonempty (flushed p).
Proof.
  intros H. unfold flushed. destruct (_current_role p) as [r|]; [|exact H].
  destruct (decide _) as [|N]; [exact H|].
  apply Forall_app. split; [exact H|].
  constructor; [|constructor]. apply strip_trimmed_nonempty, N.
Qed.

Lemma dispatch_invariant (p p' : ConversationParser) (e : event) :
  Forall trimmed_nonempty (messages p) -> dispatch p e = Ok p' ->
  Forall trimmed_nonempty (messages p').
Proof.
  intros H. destruct e as [tag attrs|data|tag]; unfold dispatch.
  - destruct (detect_role attrs) as [[r|]|] eqn:D.
    + rewrite (handle_starttag_signal _ _ _ _ D). intros [= <-].
      apply flushed_invariant, H.
    + rewrite (handle_starttag_no_signal _ _ _ D). intros [= <-]. exact H.
    + unfold handle_starttag. rewrite D. discriminate.
  - intros [= <-]. unfold handle_data.
    destruct (_current_role p); exact H.
  - unfold handle_endtag.
    destruct (_current_role p); [|intros [= <-]; exact H].
    destruct (decide _); [|intros [= <-]; exact H].
    rewrite close_message_spec. intros [= <-]. apply flushed_invariant, H.
Qed.

Lemma run_events_invariant (evs : list event) (p p' : ConversationParser) :
  Forall trimmed_nonempty (messages p) -> run_events evs p = Ok p' ->
  Forall trimmed_nonempty (messages p').
Proof.
  revert p. induction evs as [|e evs IH]; intros p H; simpl.
  - intros [= <-]. exact H.
  - destruct (dispatch p e) as [p1|] eqn:D; simpl; [|discriminate].
    apply IH. eapply dispatch_invariant; eassumption.
Qed.

(** ** The serializer and the entry point *)

Lemma serialized_cons (m : Message) (rest : list Message) :
  serialized (m :: rest) = entry m +:+ serialized rest.
Proof. reflexivity. Qed.

Lemma world_eta (w : World) :
  {| fs := fs w; stdout := stdout w; stderr := stderr w |} = w.
Proof. destruct w. reflexivity. Qed.

Lemma write_entries_spec (msgs : list Message) (path : string) (w : World)
    (content : string) :
  fs w !! path = Some (File content) ->
  write_entries msgs path w =
  ({| fs := <[path := File (content +:+ serialized msgs)]> (fs w);
      stdout := stdout w; stderr := stderr w |}, Ok tt).
Proof.
  revert w content. induction msgs as [|m msgs IH]; intros w content H.
  - unfold write_entries, ret. change (serialized []) with EmptyString.
    rewrite append_nil_r.
    rewrite insert_id by exact H. rewrite world_eta. reflexivity.
  - cbn [write_entries]. unfold bind at 1. unfold f_write at 1. rewrite H.
    rewrite (IH _ (content +:+ entry m)) by apply lookup_insert_eq.
    cbn [fs stdout stderr].
    rewrite insert_insert_eq, serialized_cons, append_assoc. reflexivity.
Qed.

Lemma write_markdown_spec (msgs : list Message) (path : string) (w : World) :
  fs w !! path <> Some Directory ->
  write_markdown msgs path w =
  ({| fs := <[path := File (serialized msgs)]> (fs w);
      stdout := stdout w; stderr := stderr w |}, Ok tt).
Proof.
  intros H. unfold write_markdown, bind, open_w.
  assert (forall w1 : World,
    fs w1 = <[path := File EmptyString]> (fs w) ->
    stdout w1 = stdout w -> stderr w1 = stderr w ->
    write_entries msgs path w1 =
    ({| fs := <[path := File (serialized msgs)]> (fs w);
        stdout := stdout w; stderr := stderr w |}, Ok tt)) as K.
  { intros w1 F O E.
    rewrite (write_entries_spec msgs path w1 EmptyString)
      by (rewrite F; apply lookup_insert_eq).
    rewrite F, O, E, insert_insert_eq, append_nil. reflexivity. }
  destruct (fs w !! path) as [[c|]|]; [| contradiction |];
    apply K; reflexivity.
Qed.

Lemma write_markdown_directory (msgs : list Message) (path : string) (w : World) :
  fs w !! path = Some Directory ->
  write_markdown msgs path w = (w, Raise IsADirectoryError).
Proof. intros H. unfold write_markdown, bind, open_w. rewrite H. reflexivity. Qed.

(** ** Element-close events *)

(** C3: on an end tag named div, p or span, with a role active, the
    message is closed whatever tag opened it: the role and the buffer are
    cleared, and (role, text) is appended, [text] being the joined and
    trimmed buffer, iff [text] is not empty. *)
Theorem C3_container_endtag_closes_message (p : ConversationParser)
    (tag : string) (r : Role) :
  _current_role p = Some r ->
  is_container tag ->
  _current_role (handle_endtag p tag) = None
  /\ _buffer (handle_endtag p tag) = []
  /\ (strip (join (_buffer p)) <> EmptyString ->
      messages (handle_endtag p tag) =
      messages p ++ [(r, strip (join (_buffer p)))])
  /\ (strip (join (_buffer p)) = EmptyString ->
      messages (handle_endtag p tag) = messages p).
Proof.
  intros Hr Ht.
  rewrite (handle_endtag_container _ _ _ Hr Ht), close_message_spec.
  cbn [messages _current_role _buffer].
  repeat split.
  - intros N. apply flushed_text; assumption.
  - intros E. apply flushed_blank. exact E.
Qed.

(** C10: an end tag that is not div, p or span, and any end tag while no
    role is active, leaves the parser as it was: same messages, same role,
    same buffer. *)
Theorem C10_other_endtags_change_nothing (p : ConversationParser)
    (tag : string) :
  ~ is_container tag \/ _current_role p = None ->
  handle_endtag p tag = p.
Proof.
  intros H. unfold handle_endtag.
  destruct (_current_role p) as [r|]; [|reflexivity].
  destruct (decide _) as [Y|]; [|reflexivity].
  apply elem_of_containers in Y. destruct H as [H|H]; [contradiction|discriminate].
Qed.

(** ** Element-open events *)


(** ** Text events *)

(** C7: a text event while no role is active changes nothing and the
    extraction's result does not depend on it, in particular for all text
    before the first role marker; while a role is active the text is
    appended to the buffer as it is, in event order. *)
Theorem C7_text_outside_a_role_is_discarded (p : ConversationParser)
    (data : string) :
  (_current_role p = None ->
   handle_data p data = p
   /\ forall evs, run_events (Data data :: evs) p = run_events evs p)
  /\ (forall before after q,
        run_events before new_parser = Ok q -> _current_role q = None ->
        extract_events (before ++ Data data :: after) =
        extract_events (before ++ after))
  /\ (forall texts after,
        extract_events (map Data texts ++ after) = extract_events after)
  /\ (forall r, _current_role p = Some r ->
        handle_data p data =
        {| messages := messages p; _current_role := Some r;
           _buffer := _buffer p ++ [data] |})
  /\ (forall r texts, _current_role p = Some r ->
        run_events (map Data texts) p =
        Ok {| messages := messages p; _current_role := Some r;
              _buffer := _buffer p ++ texts |}).
Proof.
  split; [|split; [|split; [|split]]].
  - intros H. split; [apply handle_data_idle, H|].
    intros evs. cbn [run_events dispatch rbind].
    rewrite handle_data_idle by exact H. reflexivity.
  - intros before after q Hq Hr. unfold extract_events.
    rewrite !run_events_app, Hq. cbn [rbind run_events dispatch].
    rewrite handle_data_idle by exact Hr. reflexivity.
  - intros texts after. unfold extract_events.
    rewrite run_events_app, run_idle; [reflexivity|reflexivity|].
    induction texts as [|t texts IH]; constructor; [exact I|exact IH].
  - intros r H. apply handle_data_active, H.
  - intros r texts H. apply run_data_active, H.
Qed.

Section Properties.

Variable html_events : string -> list event.

Lemma main_not_found (args : Namespace) (w : World) :
  (forall content, fs w !! input_file args <> Some (File content)) ->
  main html_events args w = (w, Raise (SystemExit "Input file not found")).
Proof.
  intros H. unfold main, bind, isfile.
  destruct (fs w !! input_file args) as [[c|]|]; try reflexivity.
  exfalso. apply (H c). reflexivity.
Qed.

Lemma main_found (args : Namespace) (w : World) (content : string) :
  fs w !! input_file args = Some (File content) ->
  main html_events args w =
  match extract html_events content with
  | Raise e => (w, Raise e)
  | Ok msgs =>
      match fs w !! output_of args with
      | Some Directory => (w, Raise IsADirectoryError)
      | _ =>
          ({| fs := <[output_of args := File (serialized msgs)]> (fs w);
              stdout := stdout w +:+ "Wrote " +:+ pretty (length msgs)
                        +:+ " messages to " +:+ output_of args +:+ nl;
              stderr := stderr w |}, Ok tt)
      end
  end.
Proof.
  intros H. unfold main, bind at 1, isfile. rewrite H. cbn [negb].
  unfold bind at 1, convert_html_to_markdown, bind at 1, read_text.
  rewrite H. unfold lift.
  destruct (extract html_events content) as [msgs|e]; [|reflexivity].
  unfold bind.
  destruct (fs w !! output_of args) as [[c|]|] eqn:O.
  - rewrite write_markdown_spec by (rewrite O; discriminate).
    unfold print. cbn [fs stdout stderr]. rewrite !append_assoc. reflexivity.
  - rewrite write_markdown_directory by exact O. reflexivity.
  - rewrite write_markdown_spec by (rewrite O; discriminate).
    unfold print. cbn [fs stdout stderr]. rewrite !append_assoc. reflexivity.
Qed.

(** ** The output invariant *)

(** C5: every message of an extraction's output has a text that is not
    empty and has nothing left to trim; closing a buffer made of
    whitespace only emits nothing; and a role marker followed by
    whitespace-only text and then by another role marker or a container
    end tag adds no message for the marker. *)
Theorem C5_emitted_text_is_trimmed_and_nonempty :
  (forall markup msgs,
     extract html_events markup = Ok msgs -> Forall trimmed_nonempty msgs)
  /\ (forall p,
        whitespace_only (join (_buffer p)) = true ->
        messages (_close_message p) = messages p)
  /\ (forall p tag attrs r blanks closing,
        detect_role attrs = Ok (Some r) ->
        whitespace_only (join blanks) = true ->
        closing_event closing ->
        exists p',
          run_events (Starttag tag attrs :: map Data blanks ++ [closing]) p
          = Ok p'
          /\ messages p' = flushed p).
Proof.
  split; [|split].
  - intros markup msgs. unfold extract, extract_events.
    destruct (run_events (html_events markup) new_parser) as [p|] eqn:R;
      [|discriminate].
    intros [= <-]. eapply run_events_invariant; [|exact R]. constructor.
  - intros p H. rewrite close_message_spec. cbn [messages].
    apply flushed_blank, strip_blank, H.
  - intros p tag attrs r blanks closing D B C.
    cbn [run_events dispatch]. rewrite (handle_starttag_signal _ _ _ _ D).
    cbn [rbind]. rewrite run_events_app.
    rewrite (run_data_active blanks _ r) by reflexivity.
    cbn [rbind messages _buffer app].
    set (q := {| messages := flushed p; _current_role := Some r;
                 _buffer := blanks |}).
    assert (flushed q = flushed p) as F.
    { apply flushed_blank. apply strip_blank. exact B. }
    destruct closing as [tag' attrs'|data|tag']; cbn [closing_event] in C.
    + destruct C as [r' D']. eexists. cbn [run_events dispatch].
      rewrite (handle_starttag_signal _ _ _ _ D'). cbn [rbind].
      split; [reflexivity|]. exact F.
    + contradiction.
    + eexists. cbn [run_events dispatch rbind].
      rewrite (handle_endtag_container q tag' r) by (reflexivity || exact C).
      rewrite close_message_spec. split; [reflexivity|]. exact F.
Qed.

(** ** The command line *)

(** C8: when the input path is not an existing regular file the process
    ends with status 1 and the line Input file not found on standard
    error; the file system and standard output are as before, whatever the
    markup reader would do.  A run that ends with status 0 has printed the
    number of extracted messages and the output path; and when the input is
    a regular file, the extraction returns and the output path can be
    written, the run writes the file, prints that line and ends with
    status 0. *)
Theorem C8_cli_exit_behaviour (args : Namespace) (w : World) :
  ((forall content, fs w !! input_file args <> Some (File content)) ->
   run html_events args w =
   ({| fs := fs w; stdout := stdout w;
       stderr := stderr w +:+ "Input file not found" +:+ nl |}, 1%Z))
  /\ (forall w',
        run html_events args w = (w', 0%Z) ->
        exists content msgs,
          fs w !! input_file args = Some (File content)
          /\ extract html_events content = Ok msgs
          /\ stdout w' =
             stdout w +:+ "Wrote " +:+ pretty (length msgs)
             +:+ " messages to " +:+ output_of args +:+ nl
          /\ stderr w' = stderr w)
  /\ (forall content msgs,
        fs w !! input_file args = Some (File content) ->
        extract html_events content = Ok msgs ->
        fs w !! output_of args <> Some Directory ->
        run html_events args w =
        ({| fs := <[output_of args := File (serialized msgs)]> (fs w);
            stdout := stdout w +:+ "Wrote " +:+ pretty (length msgs)
                      +:+ " messages to " +:+ output_of args +:+ nl;
            stderr := stderr w |}, 0%Z)).
Proof.
  split; [|split]; cycle 1.
  - intros w' R. unfold run in R.
    destruct (fs w !! input_file args) as [[content|]|] eqn:I.
    + rewrite (main_found _ _ _ I) in R.
      destruct (extract html_events content) as [msgs|e] eqn:E;
        [|discriminate].
      exists content, msgs.
      destruct (fs w !! output_of args) as [[c|]|];
        try discriminate; injection R as <-; repeat split; exact E.
    + rewrite main_not_found in R by (intros c; rewrite I; discriminate).
      discriminate.
    + rewrite main_not_found in R by (intros c; rewrite I; discriminate).
      discriminate.
  - intros content msgs I E O. unfold run. rewrite (main_found _ _ _ I), E.
    destruct (fs w !! output_of args) as [[c|]|]; try reflexivity.
    contradiction.
  - intros H. unfold run. rewrite (main_not_found _ _ H). reflexivity.
Qed.

(** C9: when the input is a regular file whose extraction yields no
    message, as for a document none of whose events carries a role signal,
    and the output path can be written, the run creates or truncates the
    output file, leaves it empty, prints a count of 0 and ends with
    status 0. *)
Theorem C9_empty_transcript_still_written (args : Namespace) (w : World)
    (content : string) :
  fs w !! input_file args = Some (File content) ->
  fs w !! output_of args <> Some Directory ->
  (extract html_events content = Ok [] ->
   run html_events args w =
   ({| fs := <[output_of args := File EmptyString]> (fs w);
       stdout := stdout w +:+ "Wrote 0 messages to " +:+ output_of args
                 +:+ nl;
       stderr := stderr w |}, 0%Z))
  /\ (Forall no_role_signal (html_events content) ->
      extract html_events content = Ok []).
Proof.
  intros I O. split.
  - intros E. unfold run. rewrite (main_found _ _ _ I), E.
    destruct (fs w !! output_of args) as [[c|]|]; try reflexivity.
    contradiction.
  - intros H. unfold extract, extract_events.
    rewrite run_idle by (reflexivity || exact H). reflexivity.
Qed.

End Properties.

(** ** A class attribute without a value *)

Lemma handle_starttag_valueless_class (p : ConversationParser) (tag : string)
    (attrs : list attr) :
  get_class attrs = None -> handle_starttag p tag attrs = Raise TypeError.
Proof.
  intros H. unfold handle_starttag.
  rewrite (detect_role_valueless _ H). reflexivity.
Qed.

(** C2 (the code departs from it): a start tag whose class attribute is
    written without a value reaches [re.search] as [None], and the
    extraction raises [TypeError]; run from the command line on such a file,
    the process ends with status 1 and writes no output file. *)
Theorem C2_valueless_class_attribute_raises :
  Scanner.events doc_valueless_class =
  [Starttag "div" [("class", None)]; Data "hi"; Endtag "div"]
  /\ handle_starttag new_parser "div" [("class", None)] = Raise TypeError
  /\ extract Scanner.events doc_valueless_class = Raise TypeError
  /\ run Scanner.events (mkArgs "chat.html" None)
       (world_of [("chat.html", File doc_valueless_class)]) =
     ({| fs := {[ "chat.html" := File doc_valueless_class ]};
         stdout := EmptyString;
         stderr := "TypeError" +:+ nl |}, 1%Z).
Proof. repeat split; vm_compute; reflexivity. Qed.

(** ** The serializer *)

(** C6: [write_markdown] leaves in the output file, for each message in
    order, the role label, a colon, a line break, the text as it is, and a
    blank line; and the two-message document of the specification gives the
    expected sequence and file content. *)
Theorem C6_serializer_format :
  (forall msgs path w,
     fs w !! path <> Some Directory ->
     write_markdown msgs path w =
     ({| fs := <[path := File (serialized msgs)]> (fs w);
         stdout := stdout w; stderr := stderr w |}, Ok tt))
  /\ serialized [] = EmptyString
  /\ (forall r text rest,
        serialized ((r, text) :: rest) =
        role_label r +:+ ":" +:+ nl +:+ text +:+ nl +:+ nl +:+ serialized rest)
  /\ Scanner.events doc_hello =
     [Starttag "div" [("class", Some "user-message")]; Data "Hi there";
      Endtag "div";
      Starttag "div" [("class", Some "assistant-message")];
      Data "Hello! How can I help?"; Endtag "div"]
  /\ extract Scanner.events doc_hello =
     Ok [(PROMPTER, "Hi there"); (CHAT, "Hello! How can I help?")]
  /\ serialized [(PROMPTER, "Hi there"); (CHAT, "Hello! How can I help?")] =
     "PROMPTER:" +:+ nl +:+ "Hi there" +:+ nl +:+ nl
     +:+ "CHAT:" +:+ nl +:+ "Hello! How can I help?" +:+ nl +:+ nl.
Proof.
  split; [exact write_markdown_spec|].
  split; [reflexivity|].
  split.
  - intros r text rest. rewrite serialized_cons. unfold entry.
    cbn [fst snd]. rewrite !append_assoc. reflexivity.
  - repeat split; vm_compute; reflexivity.
Qed.

(** ** Concrete runs *)

(** A span nested in the role container closes the message early: the text
    after it is lost and the container's own end tag finds nothing open. *)
Example nested_container_closes_early :
  extract_events
    [Starttag "div" [("class", Some "user")]; Data "a";
     Starttag "span" []; Data "b"; Endtag "span";
     Data "c"; Endtag "div"]
  = Ok [(PROMPTER, "ab")].
Proof. vm_compute. reflexivity. Qed.

(** The first message is flushed by the next role marker, the last one is
    never closed. *)
Example list_items_lose_the_last_message :
  extract Scanner.events
    "<li class='user'>question</li><li class='bot'>answer</li>"
  = Ok [(PROMPTER, "question")].
Proof. vm_compute. reflexivity. Qed.

Example derived_output_path :
  output_of (mkArgs "chat.html" None) = "chat.md"
  /\ output_of (mkArgs "chat.html" (Some EmptyString)) = "chat.md"
  /\ output_of (mkArgs "chat.html" (Some "out.txt")) = "out.txt".
Proof. repeat split; vm_compute; reflexivity. Qed.

(** ** End of input *)

(** A message still open after the last event is not in the result.  Both
    closing events emit it: one more container end tag, or one more start tag
    with a role signal, and the result is the flushed sequence. *)
Lemma open_message_needs_a_closing_event (evs : list event)
    (p : ConversationParser) (r : Role) (closing : event) :
  run_events evs new_parser = Ok p ->
  _current_role p = Some r ->
  closing_event closing ->
  extract_events evs = Ok (messages p)
  /\ extract_events (evs ++ [closing]) = Ok (flushed p).
Proof.
  intros H Hr Hc. unfold extract_events. rewrite run_events_app, H.
  split; [reflexivity|]. cbn [rbind run_events].
  destruct closing as [tag attrs|data|tag]; cbn [closing_event dispatch] in *.
  - destruct Hc as [r' D]. rewrite (handle_starttag_signal _ _ _ _ D).
    reflexivity.
  - contradiction.
  - rewrite (handle_endtag_container _ _ _ Hr Hc), close_message_spec.
    reflexivity.
Qed.

(** C1 (the code departs from it): at the end of input the open message is
    not flushed.  In the two list items below the first message is emitted
    when the second role marker arrives, through [_close_message]; when the
    events end, the role CHAT is active with the text answer buffered, and
    the result holds the first message only.  [convert_html_to_markdown]
    calls the inherited [close], which makes no call to [_close_message];
    one more container end tag would have emitted the second message too.
    The same happens to an element that is never closed. *)
Theorem C1_last_message_lost_at_end_of_input :
  Scanner.events doc_list_items =
  [Starttag "li" [("class", Some "user")]; Data "question"; Endtag "li";
   Starttag "li" [("class", Some "bot")]; Data "answer"; Endtag "li"]
  /\ run_events (Scanner.events doc_list_items) new_parser =
     Ok (mkParser [(PROMPTER, "question")] (Some CHAT) ["answer"])
  /\ extract Scanner.events doc_list_items = Ok [(PROMPTER, "question")]
  /\ ~ flushes_at_end Scanner.events doc_list_items
  /\ extract_events (Scanner.events doc_list_items ++ [Endtag "div"]) =
     Ok [(PROMPTER, "question"); (CHAT, "answer")]
  /\ Scanner.events doc_unclosed =
     [Starttag "li" [("class", Some "user")]; Data "hi"]
  /\ extract Scanner.events doc_unclosed = Ok []
  /\ ~ flushes_at_end Scanner.events doc_unclosed
  /\ run Scanner.events (mkArgs "chat.html" None)
       (world_of [("chat.html", File doc_list_items)]) =
     ({| fs := <["chat.md" := File (serialized [(PROMPTER, "question")])]>
                 {[ "chat.html" := File doc_list_items ]};
         stdout := "Wrote 1 messages to chat.md" +:+ nl;
         stderr := EmptyString |}, 0%Z).
Proof.
  split; [vm_compute; reflexivity|].
  split; [vm_compute; reflexivity|].
  split; [vm_compute; reflexivity|].
  split.
  { intros H.
    destruct (H (mkParser [(PROMPTER, "question")] (Some CHAT) ["answer"]) CHAT)
      as [before E].
    - vm_compute. reflexivity.
    - reflexivity.
    - vm_compute. discriminate.
    - vm_compute in E. destruct before as [|m [|m' before]]; discriminate. }
  split; [vm_compute; reflexivity|].
  split; [vm_compute; reflexivity|].
  split; [vm_compute; reflexivity|].
  split.
  { intros H.
    destruct (H (mkParser [] (Some PROMPTER) ["hi"]) PROMPTER) as [before E].
    - vm_compute. reflexivity.
    - reflexivity.
    - vm_compute. discriminate.
    - vm_compute in E. destruct before; discriminate. }
  vm_compute. reflexivity.
Qed.

Lemma C3_witness :
  messages (handle_endtag (mkParser [] (Some CHAT) ["  Hello"; " there "]) "span")
  = [(CHAT, "Hello there")].
Proof.
  destruct (C3_container_endtag_closes_message
              (mkParser [] (Some CHAT) ["  Hello"; " there "]) "span" CHAT)
    as (_ & _ & H & _).
  - reflexivity.
  - right. right. reflexivity.
  - apply H. vm_compute. discriminate.
Defined.


Lemma C5_witness :
  Forall trimmed_nonempty [(PROMPTER, "Hi there"); (CHAT, "Hello! How can I help?")].
Proof.
  apply (proj1 (C5_emitted_text_is_trimmed_and_nonempty Scanner.events) doc_hello).
  vm_compute. reflexivity.
Defined.

Lemma C6_witness :
  write_markdown [(PROMPTER, "Hi there")] "out.md"
    (world_of [("out.md", File "stale")])
  = ({| fs := <["out.md" := File (serialized [(PROMPTER, "Hi there")])]>
                (fs (world_of [("out.md", File "stale")]));
        stdout := EmptyString; stderr := EmptyString |}, Ok tt).
Proof.
  apply (proj1 C6_serializer_format). vm_compute. discriminate.
Defined.

Lemma C7_witness :
  handle_data new_parser "preamble" = new_parser
  /\ forall evs,
       run_events (Data "preamble" :: evs) new_parser = run_events evs new_parser.
Proof.
  apply (proj1 (C7_text_outside_a_role_is_discarded new_parser "preamble")).
  reflexivity.
Defined.

Lemma C8_witness :
  run Scanner.events (mkArgs "missing.html" None)
    (world_of [("chat.html", File doc_hello)])
  = ({| fs := fs (world_of [("chat.html", File doc_hello)]);
        stdout := EmptyString;
        stderr := EmptyString +:+ "Input file not found" +:+ nl |}, 1%Z).
Proof.
  apply (proj1 (C8_cli_exit_behaviour Scanner.events (mkArgs "missing.html" None)
                  (world_of [("chat.html", File doc_hello)]))).
  intros content. vm_compute. discriminate.
Defined.

Lemma C9_witness :
  run Scanner.events (mkArgs "page.html" None)
    (world_of [("page.html", File doc_no_roles)])
  = ({| fs := <["page.md" := File EmptyString]>
                (fs (world_of [("page.html", File doc_no_roles)]));
        stdout := "Wrote 0 messages to page.md" +:+ nl;
        stderr := EmptyString |}, 0%Z).
Proof.
  apply (proj1 (C9_empty_transcript_still_written Scanner.events
                  (mkArgs "page.html" None)
                  (world_of [("page.html", File doc_no_roles)])
                  doc_no_roles ltac:(vm_compute; reflexivity)
                  ltac:(vm_compute; discriminate))).
  vm_compute. reflexivity.
Defined.

Lemma C10_witness :
  handle_endtag (mkParser [] (Some PROMPTER) ["x"]) "li"
  = mkParser [] (Some PROMPTER) ["x"].
Proof.
  apply C10_other_endtags_change_nothing. left.
  intros [H|[H|H]]; discriminate.
Defined.

(** * Further properties of the extraction *)

(** ** Invariants of a run *)

Lemma dispatch_idle_buffer (p p' : ConversationParser) (e : event) :
  (_current_role p = None -> _buffer p = []) ->
  dispatch p e = Ok p' ->
  _current_role p' = None -> _buffer p' = [].
Proof.
  intros Inv. destruct e as [tag attrs|data|tag]; unfold dispatch.
  - destruct (detect_role attrs) as [[r|]|] eqn:D.
    + rewrite (handle_starttag_signal _ _ _ _ D). intros [= <-]. discriminate.
    + rewrite (handle_starttag_no_signal _ _ _ D). intros [= <-]. exact Inv.
    + unfold handle_starttag. rewrite D. discriminate.
  - unfold handle_data. destruct (_current_role p) eqn:R; intros [= <-].
    + cbn [_current_role]. rewrite ?R. discriminate.
    + intros _. apply Inv. reflexivity.
  - unfold handle_endtag. destruct (_current_role p) eqn:R.
    + destruct (decide _); intros [= <-].
      * reflexivity.
      * rewrite R. discriminate.
    + intros [= <-] _. apply Inv. reflexivity.
Qed.

Lemma run_idle_buffer (evs : list event) (p p' : ConversationParser) :
  (_current_role p = None -> _buffer p = []) ->
  run_events evs p = Ok p' ->
  _current_role p' = None -> _buffer p' = [].
Proof.
  revert p. induction evs as [|e evs IH]; intros p Inv; simpl.
  - intros [= <-]. exact Inv.
  - destruct (dispatch p e) as [p1|] eqn:D; simpl; [|discriminate].
    apply IH. eapply dispatch_idle_buffer; eassumption.
Qed.

(** X1: text is buffered only under a role.  After any event stream, a
    parser with no active role has an empty buffer. *)
Theorem buffer_empty_without_role (evs : list event) (p : ConversationParser) :
  run_events evs new_parser = Ok p ->
  _current_role p = None ->
  _buffer p = [].
Proof. apply run_idle_buffer. reflexivity. Qed.

Lemma buffer_empty_without_role_witness :
  _buffer (mkParser [(PROMPTER, "a")] None []) = [].
Proof.
  apply (buffer_empty_without_role
           [Starttag "p" [("class", Some "user")]; Data "a"; Endtag "p";
            Data "b"]).
  - vm_compute. reflexivity.
  - reflexivity.
Defined.

Lemma flushed_extends (p : ConversationParser) :
  exists added, flushed p = messages p ++ added /\ length added <= open_count p.
Proof.
  unfold flushed, open_count. destruct (_current_role p) as [r|].
  - destruct (decide _).
    + exists []. rewrite app_nil_r. split; [reflexivity|simpl; lia].
    + eexists. split; [reflexivity|simpl; lia].
  - exists []. rewrite app_nil_r. split; [reflexivity|simpl; lia].
Qed.

(** What one callback does to the output sequence and to the count of open
    messages. *)
Lemma dispatch_extends (p p' : ConversationParser) (e : event) :
  dispatch p e = Ok p' ->
  exists added,
    messages p' = messages p ++ added
    /\ length added + open_count p'
       <= open_count p + (if is_role_marker e then 1 else 0).
Proof.
  destruct (flushed_extends p) as (fl & Hfl & Hlen).
  destruct e as [tag attrs|data|tag]; unfold dispatch, is_role_marker.
  - destruct (detect_role attrs) as [[r|]|] eqn:D.
    + rewrite (handle_starttag_signal _ _ _ _ D). intros [= <-].
      exists fl. split; [exact Hfl|]. unfold open_count at 1. simpl. lia.
    + rewrite (handle_starttag_no_signal _ _ _ D). intros [= <-].
      exists []. rewrite app_nil_r. split; [reflexivity|simpl; lia].
    + unfold handle_starttag. rewrite D. discriminate.
  - intros [= <-]. exists []. rewrite app_nil_r.
    unfold handle_data, open_count.
    destruct (_current_role p) eqn:R; cbn [messages _current_role];
      rewrite ?R; (split; [reflexivity|simpl; lia]).
  - intros [= <-]. unfold handle_endtag.
    destruct (_current_role p) eqn:R.
    + destruct (decide _).
      * rewrite close_message_spec. exists fl. split; [exact Hfl|].
        unfold open_count at 1. simpl. lia.
      * exists []. rewrite app_nil_r. split; [reflexivity|simpl; lia].
    + exists []. rewrite app_nil_r. split; [reflexivity|simpl; lia].
Qed.

Lemma run_extends (evs : list event) (p p' : ConversationParser) :
  run_events evs p = Ok p' ->
  exists added,
    messages p' = messages p ++ added
    /\ length added + open_count p' <= open_count p + count_role_markers evs.
Proof.
  revert p. induction evs as [|e evs IH]; intros p; simpl.
  - intros [= <-]. exists []. rewrite app_nil_r. split; [reflexivity|simpl; lia].
  - destruct (dispatch p e) as [p1|] eqn:D; simpl; [|discriminate].
    intros R. apply dispatch_extends in D as (a1 & E1 & L1).
    apply IH in R as (a2 & E2 & L2).
    exists (a1 ++ a2). rewrite E2, E1, <- app_assoc. split; [reflexivity|].
    rewrite length_app. lia.
Qed.

(** X2: the output sequence only grows at its end.  Whatever events follow,
    the messages already emitted stay, in place and unchanged. *)
Theorem messages_are_append_only (evs : list event)
    (p p' : ConversationParser) :
  run_events evs p = Ok p' ->
  exists added, messages p' = messages p ++ added.
Proof.
  intros R. apply run_extends in R as (added & E & _). exists added. exact E.
Qed.

Lemma messages_are_append_only_witness :
  exists added,
    [(PROMPTER, "q"); (CHAT, "a")] = [(PROMPTER, "q")] ++ added.
Proof.
  apply (messages_are_append_only
           [Data "a"; Endtag "div"]
           (mkParser [(PROMPTER, "q")] (Some CHAT) [])
           (mkParser [(PROMPTER, "q"); (CHAT, "a")] None [])).
  vm_compute. reflexivity.
Defined.

(** X3: every message needs a role marker of its own.  The extraction never
    returns more messages than the stream has start tags with a role
    signal. *)
Theorem at_most_one_message_per_role_marker (evs : list event)
    (msgs : list Message) :
  extract_events evs = Ok msgs ->
  length msgs <= count_role_markers evs.
Proof.
  unfold extract_events.
  destruct (run_events evs new_parser) as [p|] eqn:R; [|discriminate].
  intros [= <-]. apply run_extends in R as (added & E & L).
  rewrite E. simpl in *. lia.
Qed.

Lemma at_most_one_message_per_role_marker_witness :
  length [(PROMPTER, "ab")] <= 1.
Proof.
  apply (at_most_one_message_per_role_marker
           [Starttag "div" [("class", Some "user")]; Data "a";
            Starttag "span" []; Data "b"; Endtag "span";
            Data "c"; Endtag "div"]).
  vm_compute. reflexivity.
Defined.

(** ** Streams compose *)

Lemma flushed_with_earlier (before : list Message) (p : ConversationParser) :
  flushed (with_earlier before p) = before ++ flushed p.
Proof.
  unfold flushed, pending_text. cbn [with_earlier messages _current_role _buffer].
  destruct (_current_role p); [|reflexivity].
  destruct (decide _); [reflexivity|]. symmetry. apply app_assoc.
Qed.

Lemma dispatch_with_earlier (before : list Message) (p : ConversationParser)
    (e : event) :
  dispatch (with_earlier before p) e =
  (p' <-! dispatch p e; Ok (with_earlier before p')).
Proof.
  destruct e as [tag attrs|data|tag]; unfold dispatch.
  - destruct (detect_role attrs) as [[r|]|] eqn:D.
    + rewrite !(handle_starttag_signal _ _ _ _ D), flushed_with_earlier.
      reflexivity.
    + rewrite !(handle_starttag_no_signal _ _ _ D). reflexivity.
    + unfold handle_starttag. rewrite D. reflexivity.
  - unfold rbind, handle_data. cbn [with_earlier _current_role].
    destruct (_current_role p); reflexivity.
  - unfold rbind, handle_endtag. cbn [with_earlier _current_role].
    destruct (_current_role p); [|reflexivity].
    destruct (decide _); [|reflexivity].
    rewrite !close_message_spec, flushed_with_earlier. reflexivity.
Qed.

(** The messages emitted earlier have no influence on what follows. *)
Lemma run_with_earlier (before : list Message) (evs : list event)
    (p : ConversationParser) :
  run_events evs (with_earlier before p) =
  (p' <-! run_events evs p; Ok (with_earlier before p')).
Proof.
  revert p. induction evs as [|e evs IH]; intros p; [reflexivity|].
  cbn [run_events]. rewrite dispatch_with_earlier.
  destruct (dispatch p e) as [p1|]; [|reflexivity].
  cbn [rbind]. apply IH.
Qed.

(** X4: the extraction of two streams one after the other, the first of
    which ends outside any role, is the messages of the first followed by
    those of the second; if the second raises, so does the whole. *)
Theorem extraction_of_consecutive_streams (evs1 evs2 : list event)
    (p1 : ConversationParser) :
  run_events evs1 new_parser = Ok p1 ->
  _current_role p1 = None ->
  extract_events (evs1 ++ evs2) =
  (msgs2 <-! extract_events evs2; Ok (messages p1 ++ msgs2)).
Proof.
  intros R1 Idle. unfold extract_events. rewrite run_events_app, R1.
  cbn [rbind].
  pose proof (run_idle_buffer evs1 new_parser p1 (fun _ => eq_refl) R1 Idle)
    as B.
  clear R1. destruct p1 as [m r b]. cbn [messages _current_role _buffer] in *.
  subst r b.
  replace (mkParser m None []) with (with_earlier m new_parser)
    by (unfold with_earlier; cbn; rewrite app_nil_r; reflexivity).
  rewrite run_with_earlier.
  destruct (run_events evs2 new_parser) as [p2|]; reflexivity.
Qed.

Lemma extraction_of_consecutive_streams_witness :
  extract_events
    ([Starttag "p" [("class", Some "user")]; Data "q"; Endtag "p"]
     ++ [Starttag "p" [("class", Some "bot")]; Data "a"; Endtag "p"])
  = Ok [(PROMPTER, "q"); (CHAT, "a")].
Proof.
  apply (extraction_of_consecutive_streams
           [Starttag "p" [("class", Some "user")]; Data "q"; Endtag "p"]
           [Starttag "p" [("class", Some "bot")]; Data "a"; Endtag "p"]
           (mkParser [(PROMPTER, "q")] None [])).
  - vm_compute. reflexivity.
  - reflexivity.
Defined.

(** ** Content of a message *)

Lemma run_inline (evs : list event) (p : ConversationParser) (r : Role) :
  _current_role p = Some r ->
  Forall inline_event evs ->
  run_events evs p =
  Ok {| messages := messages p; _current_role := Some r;
        _buffer := _buffer p ++ texts_of evs |}.
Proof.
  intros Hr H. revert p Hr.
  induction H as [|e evs He _ IH]; intros p Hr.
  - simpl. rewrite app_nil_r. destruct p; simpl in *; subst; reflexivity.
  - cbn [run_events]. destruct e as [tag attrs|data|tag]; cbn [dispatch texts_of].
    + cbn [inline_event] in He. rewrite (handle_starttag_no_signal _ _ _ He).
      cbn [rbind]. apply IH, Hr.
    + rewrite (handle_data_active _ _ _ Hr). cbn [rbind].
      rewrite IH by reflexivity. cbn [messages _buffer].
      rewrite <- app_assoc. reflexivity.
    + cbn [inline_event] in He. unfold handle_endtag. rewrite Hr.
      destruct (decide _) as [Y|].
      * apply elem_of_containers in Y. contradiction.
      * cbn [rbind]. apply IH, Hr.
Qed.

(** X5: markup inside an open message is transparent.  Under an active role,
    start tags without a role signal and end tags other than div, p and span
    change nothing; the texts between them are buffered in order, with
    nothing put between them. *)
Theorem inline_markup_is_transparent (evs : list event)
    (p : ConversationParser) (r : Role) :
  _current_role p = Some r ->
  Forall inline_event evs ->
  run_events evs p =
  Ok {| messages := messages p; _current_role := Some r;
        _buffer := _buffer p ++ texts_of evs |}.
Proof. apply run_inline. Qed.

Lemma inline_markup_is_transparent_witness :
  run_events [Data "a "; Starttag "b" []; Data "bold"; Endtag "b"; Data " c"]
    (mkParser [] (Some CHAT) [])
  = Ok (mkParser [] (Some CHAT) ["a "; "bold"; " c"]).
Proof.
  apply (inline_markup_is_transparent
           [Data "a "; Starttag "b" []; Data "bold"; Endtag "b"; Data " c"]
           (mkParser [] (Some CHAT) []) CHAT).
  - reflexivity.
  - repeat constructor; try (vm_compute; reflexivity);
      intros [H|[H|H]]; discriminate.
Defined.

Lemma whitespace_only_append (s t : string) :
  whitespace_only (s +:+ t) = whitespace_only s && whitespace_only t.
Proof.
  induction s as [|c s IH]; [reflexivity|].
  rewrite append_cons. simpl. rewrite IH. apply andb_assoc.
Qed.

Lemma whitespace_only_join_snoc (xs : list string) (x : string) :
  whitespace_only (join xs) = true -> whitespace_only x = true ->
  whitespace_only (join (xs ++ [x])) = true.
Proof.
  intros H1 H2.
  rewrite join_app, join_singleton, whitespace_only_append, H1, H2.
  reflexivity.
Qed.

Lemma dispatch_blank (p p' : ConversationParser) (e : event) :
  blank_text e ->
  whitespace_only (join (_buffer p)) = true ->
  dispatch p e = Ok p' ->
  messages p' = messages p /\ whitespace_only (join (_buffer p')) = true.
Proof.
  intros Be Bp.
  assert (flushed p = messages p) as F
    by (apply flushed_blank, strip_blank, Bp).
  destruct e as [tag attrs|data|tag]; unfold dispatch.
  - destruct (detect_role attrs) as [[r|]|] eqn:D.
    + rewrite (handle_starttag_signal _ _ _ _ D). intros [= <-].
      split; [exact F|reflexivity].
    + rewrite (handle_starttag_no_signal _ _ _ D). intros [= <-].
      split; [reflexivity|exact Bp].
    + unfold handle_starttag. rewrite D. discriminate.
  - intros [= <-]. unfold handle_data.
    destruct (_current_role p); cbn [messages _buffer];
      (split; [reflexivity|]); [|exact Bp].
    apply whitespace_only_join_snoc; [exact Bp|exact Be].
  - intros [= <-]. unfold handle_endtag.
    destruct (_current_role p); [|split; [reflexivity|exact Bp]].
    destruct (decide _); [|split; [reflexivity|exact Bp]].
    rewrite close_message_spec. split; [exact F|reflexivity].
Qed.

(** X6: messages come from text.  A stream whose text events are all
    whitespace (or that has no text event) yields no message, however many
    role markers and closing tags it has. *)
Theorem no_message_without_visible_text (evs : list event)
    (msgs : list Message) :
  Forall blank_text evs ->
  extract_events evs = Ok msgs ->
  msgs = [].
Proof.
  intros H. unfold extract_events.
  destruct (run_events evs new_parser) as [p|] eqn:R; [|discriminate].
  intros [= <-].
  assert (forall q q', whitespace_only (join (_buffer q)) = true ->
            run_events evs q = Ok q' -> messages q' = messages q) as K.
  { clear p R. induction H as [|e evs He _ IH]; intros q q' Bq; simpl.
    - intros [= <-]. reflexivity.
    - destruct (dispatch q e) as [q1|] eqn:D; simpl; [|discriminate].
      destruct (dispatch_blank _ _ _ He Bq D) as [M B].
      intros R. rewrite (IH _ _ B R). exact M. }
  apply (K new_parser p); [reflexivity|exact R].
Qed.

Lemma no_message_without_visible_text_witness :
  @nil Message = [].
Proof.
  apply (no_message_without_visible_text
           [Starttag "div" [("class", Some "user")]; Data "  ";
            Starttag "div" [("class", Some "bot")]; Data nl; Endtag "div"]).
  - repeat constructor.
  - vm_compute. reflexivity.
Defined.

(** ** A transcript of well-formed blocks *)

Lemma run_block (b : block) (before : list Message) :
  well_formed_block b ->
  run_events (block_events b) (mkParser before None []) =
  Ok (mkParser (before ++ block_message b) None []).
Proof.
  intros (Hb & (r & D) & Hi & Hc). unfold block_events, block_message.
  rewrite run_events_app, run_idle by (reflexivity || exact Hb).
  cbn [rbind run_events dispatch].
  rewrite (handle_starttag_signal _ _ _ _ D), D. cbn [rbind].
  rewrite flushed_no_role by reflexivity. cbn [messages].
  rewrite run_events_app, (run_inline _ _ r) by (reflexivity || exact Hi).
  cbn [rbind run_events dispatch messages _buffer app].
  rewrite (handle_endtag_container _ _ r) by (reflexivity || exact Hc).
  unfold _close_message. cbn [messages _current_role _buffer].
  destruct (texts_of (b_body b)) as [|t ts] eqn:T.
  - rewrite join_nil. cbn. rewrite app_nil_r. reflexivity.
  - cbv zeta. destruct (truthy _); [reflexivity|].
    rewrite app_nil_r. reflexivity.
Qed.

Lemma run_transcript (blocks : list block) (before : list Message) :
  Forall well_formed_block blocks ->
  run_events (transcript_events blocks) (mkParser before None []) =
  Ok (mkParser (before ++ transcript_messages blocks) None []).
Proof.
  intros H. revert before. induction H as [|b blocks Hb _ IH]; intros before.
  - simpl. rewrite app_nil_r. reflexivity.
  - cbn [transcript_events transcript_messages].
    rewrite run_events_app, (run_block _ _ Hb). cbn [rbind].
    rewrite IH, <- app_assoc. reflexivity.
Qed.

(** X7: a transcript made of role-marked elements, each closed by a div, p
    or span end tag before the next one opens and holding only inline markup,
    is extracted exactly: one message per element whose text is not blank,
    in document order, with the role of the element and its texts joined and
    trimmed.  Events without a role signal between the elements and after
    the last one are ignored. *)
Theorem well_formed_transcript_is_extracted_exactly (blocks : list block)
    (trailer : list event) :
  Forall well_formed_block blocks ->
  Forall no_role_signal trailer ->
  extract_events (transcript_events blocks ++ trailer) =
  Ok (transcript_messages blocks).
Proof.
  intros Hb Ht. unfold extract_events.
  rewrite run_events_app. unfold new_parser.
  rewrite (run_transcript _ _ Hb). cbn [rbind].
  rewrite run_idle by (reflexivity || exact Ht). reflexivity.
Qed.

Lemma well_formed_transcript_is_extracted_exactly_witness :
  extract_events
    (transcript_events
       [mkBlock [Starttag "body" []; Data "Chat log"] "div"
          [("class", Some "user-message")]
          [Data "Hi "; Starttag "b" []; Data "there"; Endtag "b"] "div";
        mkBlock [Data nl] "div" [("class", Some "bot")] [Data " "] "div";
        mkBlock [] "p" [("class", Some "ChatGPT")] [Data "Hello!"] "p"]
     ++ [Endtag "body"])
  = Ok [(PROMPTER, "Hi there"); (CHAT, "Hello!")].
Proof.
  apply (well_formed_transcript_is_extracted_exactly
           [mkBlock [Starttag "body" []; Data "Chat log"] "div"
              [("class", Some "user-message")]
              [Data "Hi "; Starttag "b" []; Data "there"; Endtag "b"] "div";
            mkBlock [Data nl] "div" [("class", Some "bot")] [Data " "] "div";
            mkBlock [] "p" [("class", Some "ChatGPT")] [Data "Hello!"] "p"]
           [Endtag "body"]).
  - repeat constructor; cbn;
      try (vm_compute; reflexivity);
      try (eexists; vm_compute; reflexivity);
      try (unfold is_container; tauto);
      intros [H|[H|H]]; discriminate.
  - repeat constructor.
Defined.

(** ** When the extraction raises *)

Lemma dispatch_ok_class_value (p p' : ConversationParser) (e : event) :
  dispatch p e = Ok p' -> class_has_value e.
Proof.
  destruct e as [tag attrs|data|tag]; cbn [dispatch class_has_value]; auto.
  destruct (get_class attrs) as [classes|] eqn:G; [eauto|].
  rewrite (handle_starttag_valueless_class _ _ _ G). discriminate.
Qed.

Lemma run_ok_class_value (evs : list event) (p p' : ConversationParser) :
  run_events evs p = Ok p' -> Forall class_has_value evs.
Proof.
  revert p. induction evs as [|e evs IH]; intros p; [constructor|].
  cbn [run_events]. destruct (dispatch p e) as [p1|] eqn:D; [|discriminate].
  cbn [rbind]. intros R. constructor.
  - eapply dispatch_ok_class_value, D.
  - eapply IH, R.
Qed.

Lemma run_raises_type_error (evs : list event) (p : ConversationParser)
    (e : exn) :
  run_events evs p = Raise e -> e = TypeError.
Proof.
  revert p. induction evs as [|ev evs IH]; intros p; [discriminate|].
  cbn [run_events]. destruct (dispatch p ev) as [p1|e1] eqn:D; cbn [rbind].
  - apply IH.
  - intros [= <-]. destruct ev as [tag attrs|data|tag]; try discriminate.
    cbn [dispatch] in D. unfold handle_starttag, detect_role in D.
    destruct (get_class attrs) as [classes|]; cbn in D.
    + destruct (search_from re_user classes); [discriminate|].
      destruct (search_from re_assistant classes); discriminate.
    + congruence.
Qed.

(** X8: the extraction returns a result exactly when, in every start tag of
    the stream, the class attribute that counts was written with a value (or
    is absent); otherwise it raises, and the exception is [TypeError]. *)
Theorem extraction_raises_exactly_on_valueless_class (evs : list event) :
  ((exists msgs, extract_events evs = Ok msgs) <-> Forall class_has_value evs)
  /\ (forall e, extract_events evs = Raise e -> e = TypeError).
Proof.
  unfold extract_events. split; [split|].
  - intros [msgs H].
    destruct (run_events evs new_parser) as [p|] eqn:R; [|discriminate].
    eapply run_ok_class_value, R.
  - intros H. destruct (run_events_total evs new_parser H) as [p R].
    exists (messages p). rewrite R. reflexivity.
  - intros e H.
    destruct (run_events evs new_parser) as [p|e'] eqn:R; [discriminate|].
    injection H as <-. eapply run_raises_type_error, R.
Qed.

Lemma extraction_raises_exactly_on_valueless_class_witness :
  Forall class_has_value
    [Starttag "div" [("class", Some "user")]; Data "hi"; Endtag "div"].
Proof.
  apply (proj1 (extraction_raises_exactly_on_valueless_class
                  [Starttag "div" [("class", Some "user")]; Data "hi";
                   Endtag "div"])).
  exists [(PROMPTER, "hi")]. vm_compute. reflexivity.
Defined.

(** ** The class attribute *)

(** X9: a start tag without a class attribute never carries a role signal,
    whatever its other attributes are and whatever the parser holds: it is
    handled without any change. *)
Theorem start_tag_without_class_changes_nothing (p : ConversationParser)
    (tag : string) (attrs : list attr) :
  Forall has_no_class attrs ->
  handle_starttag p tag attrs = Ok p.
Proof.
  intros H. apply handle_starttag_no_signal.
  rewrite (detect_role_spec _ EmptyString) by (apply get_class_absent, H).
  reflexivity.
Qed.

Lemma start_tag_without_class_changes_nothing_witness :
  handle_starttag (mkParser [] (Some CHAT) ["x"]) "a"
    [("href", Some "user.html"); ("hidden", None)]
  = Ok (mkParser [] (Some CHAT) ["x"]).
Proof.
  apply start_tag_without_class_changes_nothing.
  repeat constructor; discriminate.
Defined.

Lemma get_class_single (v : option string) : get_class [("class", v)] = v.
Proof. apply (get_class_last [] [] v). constructor. Qed.

(** X10: when a start tag repeats the class attribute, the last occurrence
    alone decides; the earlier ones and all other attributes play no part,
    also when the last one has no value and the handler raises. *)
Theorem last_class_attribute_decides (p : ConversationParser) (tag : string)
    (attrs rest : list attr) (v : option string) :
  Forall has_no_class rest ->
  handle_starttag p tag (attrs ++ ("class", v) :: rest) =
  handle_starttag p tag [("class", v)].
Proof.
  intros H. unfold handle_starttag, detect_role.
  rewrite (get_class_last attrs rest v H), get_class_single.
  reflexivity.
Qed.

Lemma last_class_attribute_decides_witness :
  handle_starttag new_parser "div"
    ([("class", Some "user")] ++ ("class", Some "bot") :: [("id", Some "user")])
  = handle_starttag new_parser "div" [("class", Some "bot")].
Proof.
  apply last_class_attribute_decides. repeat constructor; discriminate.
Defined.

(** ** Letter case *)

Lemma lower_idem (c : ascii) : lower (lower c) = lower c.
Proof. destruct c as [[] [] [] [] [] [] [] []]; reflexivity. Qed.

Lemma match_here_lower (pat s : string) :
  match_here pat (lower_str s) = match_here pat s.
Proof.
  revert s. induction pat as [|a pat IH]; intros [|b s]; try reflexivity.
  simpl. rewrite lower_idem, IH. reflexivity.
Qed.

Lemma existsb_match_lower (alts : regex) (s : string) :
  existsb (fun pat => match_here pat (lower_str s)) alts =
  existsb (fun pat => match_here pat s) alts.
Proof.
  induction alts as [|pat alts IH]; [reflexivity|].
  cbn [existsb]. rewrite match_here_lower, IH. reflexivity.
Qed.

Lemma search_from_lower (alts : regex) (s : string) :
  search_from alts (lower_str s) = search_from alts s.
Proof.
  induction s as [|c s IH]; [reflexivity|].
  cbn [lower_str search_from]. rewrite IH.
  change (String (lower c) (lower_str s)) with (lower_str (String c s)).
  rewrite existsb_match_lower. reflexivity.
Qed.

(** X11: role detection ignores letter case throughout the class value: two
    start tags whose class values differ only in the case of their letters
    are handled alike. *)
Theorem role_detection_ignores_case (p : ConversationParser)
    (tag1 tag2 : string) (classes1 classes2 : string) :
  lower_str classes1 = lower_str classes2 ->
  handle_starttag p tag1 [("class", Some classes1)] =
  handle_starttag p tag2 [("class", Some classes2)].
Proof.
  intros H. unfold handle_starttag.
  rewrite !(detect_role_spec _ _ (get_class_single _)).
  rewrite <- (search_from_lower re_user classes1),
          <- (search_from_lower re_assistant classes1), H,
          !search_from_lower.
  reflexivity.
Qed.

Lemma role_detection_ignores_case_witness :
  handle_starttag new_parser "div" [("class", Some "ChatGPT-Reply")] =
  handle_starttag new_parser "p" [("class", Some "chatgpt-reply")].
Proof.
  apply role_detection_ignores_case. reflexivity.
Defined.

(** * Further properties of the serializer and the entry point *)

Lemma entry_not_empty (m : Message) : entry m <> EmptyString.
Proof. destruct m as [[] text]; discriminate. Qed.

Lemma serialized_empty (msgs : list Message) :
  serialized msgs = EmptyString <-> msgs = [].
Proof.
  split; [|intros ->; reflexivity].
  destruct msgs as [|m msgs]; [reflexivity|].
  rewrite serialized_cons. intros H. exfalso.
  destruct m as [[] text]; discriminate.
Qed.

(** X12: the file [write_markdown] leaves is empty exactly when the sequence
    of messages is empty: every message, whatever its text, puts at least its
    role line in the file. *)
Theorem written_file_empty_iff_no_message (msgs : list Message)
    (path : string) (w : World) :
  fs w !! path <> Some Directory ->
  fs (write_markdown msgs path w).1 !! path = Some (File EmptyString)
  <-> msgs = [].
Proof.
  intros H. rewrite (write_markdown_spec _ _ _ H). cbn [fst fs].
  rewrite lookup_insert_eq. rewrite <- serialized_empty.
  split; [intros [= E]; exact E|intros ->; reflexivity].
Qed.

Lemma written_file_empty_iff_no_message_witness :
  fs (write_markdown [] "out.md" (world_of [("out.md", File "old")])).1
    !! "out.md" = Some (File EmptyString).
Proof.
  apply (written_file_empty_iff_no_message [] "out.md"
           (world_of [("out.md", File "old")])).
  - vm_compute. discriminate.
  - reflexivity.
Defined.

Lemma serialized_app (xs ys : list Message) :
  serialized (xs ++ ys) = serialized xs +:+ serialized ys.
Proof. unfold serialized. rewrite map_app. apply join_app. Qed.

(** X13: the written format does not keep messages apart.  One message whose
    text holds a blank line followed by a role line is written exactly like
    two messages, so the file does not determine the sequence it came
    from. *)
Theorem written_format_is_ambiguous (r r' : Role) (a b : string)
    (path : string) (w : World) :
  write_markdown
    [(r, a +:+ nl +:+ nl +:+ role_label r' +:+ ":" +:+ nl +:+ b)] path w
  = write_markdown [(r, a); (r', b)] path w.
Proof.
  destruct (fs w !! path) as [[c|]|] eqn:E.
  - rewrite !write_markdown_spec by (rewrite E; discriminate).
    do 3 f_equal. unfold serialized. cbn [map join fold_right fst snd].
    rewrite !append_assoc. reflexivity.
  - rewrite !write_markdown_directory by exact E. reflexivity.
  - rewrite !write_markdown_spec by (rewrite E; discriminate).
    do 3 f_equal. unfold serialized. cbn [map join fold_right fst snd].
    rewrite !append_assoc. reflexivity.
Qed.

(** X14: [write_markdown] replaces.  Writing a second sequence to the same
    path leaves exactly what writing it alone would have left, and no other
    path of the file system is touched. *)
Theorem write_markdown_replaces_and_frames (msgs1 msgs2 : list Message)
    (path : string) (w : World) :
  fs w !! path <> Some Directory ->
  write_markdown msgs2 path (write_markdown msgs1 path w).1
  = write_markdown msgs2 path w
  /\ forall other, other <> path ->
       fs (write_markdown msgs1 path w).1 !! other = fs w !! other.
Proof.
  intros H. rewrite (write_markdown_spec msgs1 _ _ H). cbn [fst]. split.
  - rewrite !write_markdown_spec; cbn [fs stdout stderr].
    + rewrite insert_insert_eq. reflexivity.
    + exact H.
    + rewrite lookup_insert_eq. discriminate.
  - intros other N. cbn [fs]. apply lookup_insert_ne. congruence.
Qed.

Lemma write_markdown_replaces_and_frames_witness :
  write_markdown [(CHAT, "b")] "o.md"
    (write_markdown [(PROMPTER, "a")] "o.md" (world_of [])).1
  = write_markdown [(CHAT, "b")] "o.md" (world_of []).
Proof.
  apply (write_markdown_replaces_and_frames [(PROMPTER, "a")] [(CHAT, "b")]
           "o.md" (world_of [])).
  vm_compute. discriminate.
Defined.

Section Runs.

Variable html_events : string -> list event.

(** Every run, by cases on the input path, the extraction and the output
    path. *)
Lemma run_cases (args : Namespace) (w : World) :
  (run html_events args w).2 = 0%Z
  /\ (exists content msgs,
        fs w !! input_file args = Some (File content)
        /\ extract html_events content = Ok msgs
        /\ run html_events args w =
           ({| fs := <[output_of args := File (serialized msgs)]> (fs w);
               stdout := stdout w +:+ "Wrote " +:+ pretty (length msgs)
                         +:+ " messages to " +:+ output_of args +:+ nl;
               stderr := stderr w |}, 0%Z))
  \/ exists e,
       run html_events args w =
       ({| fs := fs w; stdout := stdout w;
           stderr := stderr w +:+ exn_name e +:+ nl |}, 1%Z).
Proof.
  unfold run.
  destruct (fs w !! input_file args) as [[content|]|] eqn:I.
  - rewrite (main_found _ _ _ _ I).
    destruct (extract html_events content) as [msgs|e] eqn:E.
    + destruct (fs w !! output_of args) as [[c|]|] eqn:O.
      * left. split; [reflexivity|]. exists content, msgs. auto.
      * right. eexists. reflexivity.
      * left. split; [reflexivity|]. exists content, msgs. auto.
    + right. eexists. reflexivity.
  - right. rewrite main_not_found by (intros c; rewrite I; discriminate).
    eexists. reflexivity.
  - right. rewrite main_not_found by (intros c; rewrite I; discriminate).
    eexists. reflexivity.
Qed.

(** X15: a run that fails changes nothing but standard error.  Whenever the
    exit status is not 0 (input not found, extraction raising, output path a
    directory) the file system and standard output are as before: the
    output file is neither created nor truncated. *)
Theorem failed_run_writes_nothing (args : Namespace) (w : World) :
  (run html_events args w).2 <> 0%Z ->
  fs (run html_events args w).1 = fs w
  /\ stdout (run html_events args w).1 = stdout w
  /\ (run html_events args w).2 = 1%Z.
Proof.
  intros N. destruct (run_cases args w) as [[Z _]|[e R]].
  - contradiction.
  - rewrite R. repeat split.
Qed.

(** X16: a run writes to one path only.  Every path other than the output
    path holds after the run what it held before, whether the run succeeds
    or not; in particular the input file is kept when the output path
    differs from it. *)
Theorem run_touches_only_the_output_path (args : Namespace) (w : World)
    (path : string) :
  path <> output_of args ->
  fs (run html_events args w).1 !! path = fs w !! path.
Proof.
  intros N. destruct (run_cases args w) as [[_ (c & m & _ & _ & R)]|[e R]];
    rewrite R; cbn [fst fs]; [|reflexivity].
  apply lookup_insert_ne. congruence.
Qed.

End Runs.

Lemma failed_run_writes_nothing_witness :
  fs (run Scanner.events (mkArgs "chat.html" (Some "out.md"))
        (world_of [("chat.html", File doc_valueless_class);
                   ("out.md", File "keep")])).1
  = fs (world_of [("chat.html", File doc_valueless_class);
                  ("out.md", File "keep")]).
Proof.
  apply (failed_run_writes_nothing Scanner.events
           (mkArgs "chat.html" (Some "out.md"))
           (world_of [("chat.html", File doc_valueless_class);
                      ("out.md", File "keep")])).
  vm_compute. discriminate.
Defined.

Lemma run_touches_only_the_output_path_witness :
  fs (run Scanner.events (mkArgs "chat.html" None)
        (world_of [("chat.html", File doc_hello)])).1 !! "chat.html"
  = fs (world_of [("chat.html", File doc_hello)]) !! "chat.html".
Proof.
  apply (run_touches_only_the_output_path Scanner.events
           (mkArgs "chat.html" None)
           (world_of [("chat.html", File doc_hello)]) "chat.html").
  vm_compute. discriminate.
Defined.

(** ** The derived output path *)

Lemma length_append (s t : string) :
  String.length (s +:+ t) = String.length s + String.length t.
Proof.
  induction s as [|c s IH]; [reflexivity|].
  rewrite append_cons. simpl. rewrite IH. reflexivity.
Qed.

Lemma substring_all (s : string) : String.substring 0 (String.length s) s = s.
Proof. induction s as [|c s IH]; [reflexivity|]. simpl. rewrite IH. reflexivity. Qed.

Lemma substring_prefix (s t : string) :
  String.substring 0 (String.length s) (s +:+ t) = s.
Proof.
  induction s as [|c s IH].
  - destruct t; reflexivity.
  - rewrite append_cons. simpl. rewrite IH. reflexivity.
Qed.

Lemma substring_suffix (s t : string) :
  String.substring (String.length s) (String.length t) (s +:+ t) = t.
Proof.
  induction s as [|c s IH]; [apply substring_all|].
  rewrite append_cons. simpl. exact IH.
Qed.

Lemma rfind_range (c : ascii) (s : string) :
  (-1 <= rfind c s < Z.of_nat (String.length s))%Z.
Proof.
  induction s as [|a s IH]; [simpl; lia|].
  cbn [rfind String.length]. cbv zeta.
  destruct (0 <=? rfind c s)%Z eqn:E; [lia|].
  destruct (Ascii.eqb a c); lia.
Qed.

Lemma rfind_absent (c : ascii) (s : string) :
  has_char c s = false -> rfind c s = (-1)%Z.
Proof.
  induction s as [|a s IH]; [reflexivity|].
  cbn [has_char rfind]. intros H. apply orb_false_iff in H as [H1 H2].
  rewrite (IH H2), H1. reflexivity.
Qed.

Lemma rfind_app (c : ascii) (s t : string) :
  rfind c (s +:+ t) =
  if (0 <=? rfind c t)%Z then (Z.of_nat (String.length s) + rfind c t)%Z
  else rfind c s.
Proof.
  induction s as [|a s IH].
  - rewrite append_nil. pose proof (rfind_range c t).
    destruct (0 <=? rfind c t)%Z eqn:E; simpl;
      [reflexivity|apply Z.leb_gt in E; lia].
  - rewrite append_cons. cbn [rfind String.length]. cbv zeta. rewrite IH.
    pose proof (rfind_range c s).
    destruct (0 <=? rfind c t)%Z eqn:E.
    + apply Z.leb_le in E.
      destruct (0 <=? _)%Z eqn:E2; [lia|apply Z.leb_gt in E2; lia].
    + reflexivity.
Qed.

Lemma get_app_length (s : string) (c : ascii) (t : string) :
  String.get (String.length s) (s +:+ String c t) = Some c.
Proof. induction s as [|a s IH]; [reflexivity|]. rewrite append_cons. exact IH. Qed.

Lemma has_non_dot_found (p : string) (i n j : nat) (c : ascii) :
  i <= j < i + n -> String.get j p = Some c -> c <> "."%char ->
  has_non_dot p i n = true.
Proof.
  revert i. induction n as [|n IH]; intros i Hr G N; [lia|].
  cbn [has_non_dot]. destruct (String.get i p) as [a|] eqn:Gi; [|reflexivity].
  destruct (Ascii.eqb a "."%char) eqn:E; [|reflexivity].
  apply Ascii.eqb_eq in E. subst a.
  apply (IH (S i)); try assumption.
  destruct (Nat.eq_dec i j) as [->|]; [congruence|lia].
Qed.

(** [os.path.splitext] on a path whose last component has a name that does
    not start with a dot, then a dot and a suffix. *)
Lemma splitext_name_dot_suffix (dir : string) (c : ascii)
    (name suffix : string) :
  c <> "."%char ->
  has_char "/"%char (String c name) = false ->
  has_char "."%char suffix = false ->
  has_char "/"%char suffix = false ->
  splitext (dir +:+ String c name +:+ "." +:+ suffix) =
  (dir +:+ String c name, "." +:+ suffix).
Proof.
  intros Nc Hn Hd Hs.
  set (stem := dir +:+ String c name).
  assert (dir +:+ String c name +:+ "." +:+ suffix = stem +:+ "." +:+ suffix)
    as -> by (unfold stem; rewrite !append_assoc; reflexivity).
  assert (rfind "."%char ("." +:+ suffix) = 0%Z) as Dot.
  { change ("." +:+ suffix) with (String "."%char suffix).
    cbn [rfind]. rewrite (rfind_absent _ _ Hd). reflexivity. }
  assert (rfind "/"%char ("." +:+ suffix) = (-1)%Z) as Sep.
  { change ("." +:+ suffix) with (String "."%char suffix).
    cbn [rfind]. rewrite (rfind_absent _ _ Hs). reflexivity. }
  unfold splitext.
  rewrite (rfind_app "."%char), Dot, (rfind_app "/"%char), Sep.
  cbn [Z.leb Z.compare]. rewrite Z.add_0_r.
  assert (rfind "/"%char stem = rfind "/"%char dir) as Sd.
  { unfold stem. rewrite rfind_app, (rfind_absent _ _ Hn). reflexivity. }
  pose proof (rfind_range "/"%char dir) as Rd.
  assert (String.length stem = String.length dir + S (String.length name))
    as Ls by (unfold stem; rewrite length_append; reflexivity).
  assert ((rfind "/"%char stem <? Z.of_nat (String.length stem))%Z = true)
    as -> by (apply Z.ltb_lt; lia).
  rewrite (has_non_dot_found _ _ _ (String.length dir) c).
  - cbn [andb]. rewrite Nat2Z.id.
    rewrite substring_prefix.
    replace (String.length (stem +:+ "." +:+ suffix) - String.length stem)
      with (String.length ("." +:+ suffix))
      by (rewrite (length_append stem); lia).
    rewrite substring_suffix. reflexivity.
  - rewrite Sd. lia.
  - unfold stem. rewrite append_assoc. apply get_app_length.
  - exact Nc.
Qed.

(** X17: without an output argument (or with an empty one) the output path
    is the input path with its extension replaced by .md: for an input whose
    last component is a name not starting with a dot, a dot and a suffix,
    the suffix is dropped and md put in its place, in the same directory. *)
Theorem derived_output_replaces_extension (dir : string) (c : ascii)
    (name suffix : string) (given : option string) :
  given = None \/ given = Some EmptyString ->
  c <> "."%char ->
  has_char "/"%char (String c name) = false ->
  has_char "."%char suffix = false ->
  has_char "/"%char suffix = false ->
  output_of (mkArgs (dir +:+ String c name +:+ "." +:+ suffix) given) =
  dir +:+ String c name +:+ ".md".
Proof.
  intros G Nc Hn Hd Hs. unfold output_of. cbn [input_file output_file].
  rewrite (splitext_name_dot_suffix _ _ _ _ Nc Hn Hd Hs). cbn [fst].
  rewrite append_assoc. destruct G as [-> | ->]; reflexivity.
Qed.

Lemma derived_output_replaces_extension_witness :
  output_of (mkArgs ("/home/me/logs.d/" +:+ "chat.v2" +:+ "." +:+ "html") None)
  = "/home/me/logs.d/" +:+ "chat.v2" +:+ ".md".
Proof.
  apply (derived_output_replaces_extension "/home/me/logs.d/" "c" "hat.v2"
           "html" None).
  - left. reflexivity.
  - discriminate.
  - reflexivity.
  - reflexivity.
  - reflexivity.
Defined.

(** X18: an input that already has the extension md is its own output: run
    without an output argument, the tool replaces the input file by the
    messages extracted from it. *)
Theorem md_input_is_overwritten (html_events : string -> list event)
    (dir : string) (c : ascii) (name : string) (w : World)
    (content : string) (msgs : list Message) :
  c <> "."%char ->
  has_char "/"%char (String c name) = false ->
  fs w !! (dir +:+ String c name +:+ ".md") = Some (File content) ->
  extract html_events content = Ok msgs ->
  fs (run html_events (mkArgs (dir +:+ String c name +:+ ".md") None) w).1
    !! (dir +:+ String c name +:+ ".md")
  = Some (File (serialized msgs)).
Proof.
  intros Nc Hn I E.
  assert (output_of (mkArgs (dir +:+ String c name +:+ ".md") None)
          = dir +:+ String c name +:+ ".md") as O.
  { unfold output_of. cbn [input_file output_file].
    change ".md" with ("." +:+ "md") at 1.
    rewrite (splitext_name_dot_suffix dir c name "md" Nc Hn eq_refl eq_refl).
    cbn [fst]. apply append_assoc. }
  unfold run.
  rewrite (main_found html_events
             (mkArgs (dir +:+ String c name +:+ ".md") None) w content I).
  rewrite E, O, I. cbn [fst fs].
  apply lookup_insert_eq.
Qed.

Lemma md_input_is_overwritten_witness :
  fs (run Scanner.events (mkArgs ("" +:+ "notes" +:+ ".md") None)
        (world_of [("notes.md", File doc_hello)])).1
    !! ("" +:+ "notes" +:+ ".md")
  = Some (File (serialized [(PROMPTER, "Hi there");
                            (CHAT, "Hello! How can I help?")])).
Proof.
  apply (md_input_is_overwritten Scanner.events "" "n" "otes"
           (world_of [("notes.md", File doc_hello)]) doc_hello).
  - discriminate.
  - reflexivity.
  - vm_compute. reflexivity.
  - vm_compute. reflexivity.
Defined.

Lemma splitext_no_dot (dir name : string) :
  dir = EmptyString \/ (exists d, dir = d +:+ "/") ->
  has_char "."%char name = false ->
  has_char "/"%char name = false ->
  splitext (dir +:+ name) = (dir +:+ name, EmptyString).
Proof.
  intros Hdir Hd Hs. unfold splitext.
  rewrite (rfind_app "."%char), (rfind_app "/"%char).
  rewrite (rfind_absent _ _ Hd), (rfind_absent _ _ Hs). cbn [Z.leb Z.compare].
  assert ((rfind "/"%char dir <? rfind "."%char dir)%Z = false) as ->;
    [|reflexivity].
  apply Z.ltb_ge. destruct Hdir as [->|[d ->]]; [reflexivity|].
  pose proof (rfind_range "."%char (d +:+ "/")) as R.
  rewrite length_append in R. cbn [String.length] in R.
  rewrite (rfind_app "/"%char d "/"). cbn. lia.
Qed.

(** X19: an input path whose last component has no dot gets .md appended:
    without an output argument the output path is the whole input path
    followed by .md, also when a directory of the path has a dot in its
    name. *)
Theorem derived_output_appends_without_extension (dir name : string)
    (given : option string) :
  given = None \/ given = Some EmptyString ->
  dir = EmptyString \/ (exists d, dir = d +:+ "/") ->
  has_char "."%char name = false ->
  has_char "/"%char name = false ->
  output_of (mkArgs (dir +:+ name) given) = (dir +:+ name) +:+ ".md".
Proof.
  intros G Hdir Hd Hs. unfold output_of. cbn [input_file output_file].
  rewrite (splitext_no_dot _ _ Hdir Hd Hs). cbn [fst].
  destruct G as [-> | ->]; reflexivity.
Qed.

Lemma derived_output_appends_without_extension_witness :
  output_of (mkArgs ("exports.2024/" +:+ "chat") None)
  = ("exports.2024/" +:+ "chat") +:+ ".md".
Proof.
  apply (derived_output_appends_without_extension "exports.2024/" "chat" None).
  - left. reflexivity.
  - right. exists "exports.2024". reflexivity.
  - reflexivity.
  - reflexivity.
Defined.
